(** * BST.h: the class template [BST<DataType>] over an explicit heap

    The C++ class keeps a raw pointer [myRoot] to heap-allocated [BinNode]s
    that are linked through raw [left]/[right] pointers and mutated in
    place.  The embedding keeps exactly that: a heap is a finite map from
    locations to nodes, a pointer is an optional location ([None] is
    [nullptr]), and every member function is a computation in a small
    state-and-exception monad.  Loops take a fuel argument; dereferencing or
    deleting a pointer that is null or not allocated is [Undefined]. *)

From stdpp Require Import gmap strings list fin_maps sorting pretty.

(** ** Memory *)

Definition loc := positive.
Definition ptr := option loc.

Global Instance loc_eq_dec : EqDecision loc := Pos.eq_dec.

(** [class BinNode] *)
Record BinNode (DataType : Type) := mkBinNode {
  data : DataType;
  left : ptr;
  right : ptr
}.
Arguments mkBinNode {DataType} data left right.
Arguments data {DataType} b.
Arguments left {DataType} b.
Arguments right {DataType} b.

(** The store together with the one data member of the object, [myRoot]. *)
Record world (DataType : Type) := mkWorld {
  heap : gmap loc (BinNode DataType);
  myRoot : ptr
}.
Arguments mkWorld {DataType} heap myRoot.
Arguments heap {DataType} w.
Arguments myRoot {DataType} w.

(** ** Computations *)

(** How a call ends: it returns, an exception escapes it, it does something
    the language leaves undefined, or the fuel of a loop ran out. *)
Inductive result (W A : Type) : Type :=
| Ok (a : A) (w : W)
| Throw (what : string) (w : W)
| Undefined
| OutOfFuel.
Arguments Ok {W A} a w.
Arguments Throw {W A} what w.
Arguments Undefined {W A}.
Arguments OutOfFuel {W A}.

(** A member function: a state transformer on worlds that may fail. *)
Definition M (DataType A : Type) : Type :=
  world DataType → result (world DataType) A.

Definition ret {DataType A} (a : A) : M DataType A := fun w => Ok a w.

Definition bind {DataType A B} (k : A → M DataType B) (m : M DataType A)
    : M DataType B :=
  fun w =>
    match m w with
    | Ok a w' => k a w'
    | Throw what w' => Throw what w'
    | Undefined => Undefined
    | OutOfFuel => OutOfFuel
    end.

Global Instance M_ret {DataType} : MRet (M DataType) := @ret DataType.
Global Instance M_bind {DataType} : MBind (M DataType) := @bind DataType.

(** ** Trees laid out in the heap

    The shape that a heap holds below a pointer: every node is named by the
    location it lives at. *)
Inductive tree (DataType : Type) : Type :=
| Leaf
| Node (l : loc) (tl : tree DataType) (d : DataType) (tr : tree DataType).
Arguments Leaf {DataType}.
Arguments Node {DataType} l tl d tr.

Section BST.

(** The template parameter, its [operator<] and its [operator<<]. *)
Context {DataType : Type}.
Variable lt : DataType → DataType → bool.
Variable show : DataType → string.

Abbreviation BinNode := (BinNode DataType).
Abbreviation world := (world DataType).
Abbreviation M := (M DataType).
Abbreviation tree := (tree DataType).

(** [BinNode(DataType item)]: both links null. *)
Definition BinNode_item (item : DataType) : BinNode :=
  mkBinNode item None None.

(** [throw std::runtime_error(what)] *)
Definition throw {A} (what : string) : M A := fun w => Throw what w.
Definition undefined {A} : M A := fun _ => Undefined.
Definition out_of_fuel {A} : M A := fun _ => OutOfFuel.

(** [*p] *)
Definition load (p : ptr) : M BinNode :=
  fun w =>
    match p with
    | None => Undefined
    | Some l =>
        match heap w !! l with
        | Some nd => Ok nd w
        | None => Undefined
        end
    end.

(** [*p = nd], used for the three field assignments below. *)
Definition store (p : ptr) (nd : BinNode) : M unit :=
  fun w =>
    match p with
    | None => Undefined
    | Some l =>
        match heap w !! l with
        | Some _ => Ok tt (mkWorld (<[l := nd]> (heap w)) (myRoot w))
        | None => Undefined
        end
    end.

(** [p->data = d], [p->left = q], [p->right = q] *)
Definition set_data (p : ptr) (d : DataType) : M unit :=
  nd ← load p; store p (mkBinNode d (left nd) (right nd)).
Definition set_left (p : ptr) (q : ptr) : M unit :=
  nd ← load p; store p (mkBinNode (data nd) q (right nd)).
Definition set_right (p : ptr) (q : ptr) : M unit :=
  nd ← load p; store p (mkBinNode (data nd) (left nd) q).

(** [new BinNode(item)]: a location that is not allocated. *)
Definition new_BinNode (item : DataType) : M ptr :=
  fun w =>
    let l := fresh (dom (heap w)) in
    Ok (Some l) (mkWorld (<[l := BinNode_item item]> (heap w)) (myRoot w)).

(** [delete p] for a non-null [p]. *)
Definition delete_node (p : ptr) : M unit :=
  fun w =>
    match p with
    | None => Undefined
    | Some l =>
        match heap w !! l with
        | Some _ => Ok tt (mkWorld (delete l (heap w)) (myRoot w))
        | None => Undefined
        end
    end.

Definition get_myRoot : M ptr := fun w => Ok (myRoot w) w.
Definition set_myRoot (p : ptr) : M unit :=
  fun w => Ok tt (mkWorld (heap w) p).

(** [p != nullptr] and [p == q] on pointers. *)
Definition not_null (p : ptr) : bool := bool_decide (p ≠ None).
Definition ptr_eqb (p q : ptr) : bool := bool_decide (p = q).

(** ** The member functions *)

(** [BST()] *)
Definition BST_new (h : gmap loc BinNode) : world := mkWorld h None.

(** [empty()] *)
Definition empty : M bool :=
  root ← get_myRoot; ret (ptr_eqb root None).

(** [search(item)]: the body only declares [found = false] and returns it. *)
Definition search (item : DataType) : M bool :=
  let found := false in
  ret found.

(** The [while (!found && locptr != nullptr)] loop of [insert]. *)
Fixpoint insert_loop (fuel : nat) (item : DataType)
    (locptr parent : ptr) (found : bool) : M (ptr * ptr * bool) :=
  if negb found && not_null locptr then
    match fuel with
    | O => out_of_fuel
    | S fuel =>
        let parent := locptr in
        nd ← load locptr;
        if lt item (data nd) then
          insert_loop fuel item (left nd) parent found
        else if lt (data nd) item then
          insert_loop fuel item (right nd) parent found
        else
          insert_loop fuel item locptr parent true
    end
  else ret (locptr, parent, found).

(** [insert(item)] *)
Definition insert (fuel : nat) (item : DataType) : M unit :=
  root ← get_myRoot;
  '(locptr, parent, found) ← insert_loop fuel item root None false;
  if negb found then
    locptr ← new_BinNode item;
    if ptr_eqb parent None then set_myRoot locptr
    else
      pn ← load parent;
      if lt item (data pn) then set_left parent locptr
      else set_right parent locptr
  else throw "Item already in the tree".

(** [search2(item, found, locptr, parent)]: the body is empty, so the three
    reference parameters come back as they went in. *)
Definition search2 (item : DataType) (found : bool) (locptr parent : ptr)
    : M (bool * ptr * ptr) :=
  ret (found, locptr, parent).

(** The [while (xSucc->left != nullptr)] loop of [remove]. *)
Fixpoint succ_loop (fuel : nat) (xSucc parent : ptr) : M (ptr * ptr) :=
  sn ← load xSucc;
  if not_null (left sn) then
    match fuel with
    | O => out_of_fuel
    | S fuel =>
        let parent := xSucc in
        succ_loop fuel (left sn) parent
    end
  else ret (xSucc, parent).

(** [remove(item)].  The locals [found], [x] and [parent] are declared
    without an initialiser and [search2] assigns none of them, so what they
    hold when they are first read is not determined by the program: the
    three values are arguments of the model. *)
Definition remove (fuel : nat) (item : DataType)
    (found : bool) (x parent : ptr) : M unit :=
  '(found, x, parent) ← search2 item found x parent;
  if negb found then throw "Item not in the BST"
  else
    xn ← load x;
    '(x, parent) ←
      (if not_null (left xn) && not_null (right xn) then
         let xSucc := right xn in
         let parent := x in
         '(xSucc, parent) ← succ_loop fuel xSucc parent;
         sn ← load xSucc;
         set_data x (data sn);;
         let x := xSucc in
         ret (x, parent)
       else ret (x, parent));
    xn ← load x;
    let subtree := left xn in
    let subtree := if ptr_eqb subtree None then right xn else subtree in
    (if ptr_eqb parent None then set_myRoot subtree
     else
       pn ← load parent;
       if ptr_eqb (left pn) x then set_left parent subtree
       else set_right parent subtree);;
    delete_node x.

(** ** Output *)

Definition endl : string := String (Ascii.ascii_of_nat 10) "".

Fixpoint spaces (n : nat) : string :=
  match n with
  | O => ""
  | S n => String (Ascii.ascii_of_nat 32) (spaces n)
  end.

(** [out << std::setw(w) << s]: [s] right-aligned in a field of at least [w]
    characters; a longer [s] is written whole. *)
Definition setw (w : Z) (s : string) : string :=
  spaces (Z.to_nat w - String.length s) +:+ s.

(** [inorderAux(out, subtreeRoot, separator)]; the stream is the text
    written so far. *)
Fixpoint inorderAux (fuel : nat) (out : string) (subtreeRoot : ptr)
    (separator : string) : M string :=
  match fuel with
  | O => out_of_fuel
  | S fuel =>
      if not_null subtreeRoot then
        nd ← load subtreeRoot;
        out ← inorderAux fuel out (left nd) separator;
        let out := out +:+ show (data nd) +:+ separator in
        inorderAux fuel out (right nd) separator
      else ret out
  end.

(** [preorderAux] and [postorderAux]: empty bodies. *)
Definition preorderAux (out : string) (subtreeRoot : ptr)
    (separator : string) : M string :=
  ret out.
Definition postorderAux (out : string) (subtreeRoot : ptr)
    (separator : string) : M string :=
  ret out.

(** [inorder(out, separator)] *)
Definition inorder (fuel : nat) (out : string) (separator : string)
    : M string :=
  root ← get_myRoot; inorderAux fuel out root separator.

(** [preorder(out, separator)] and [postorder(out, separator)]: empty
    bodies, the helpers are not called. *)
Definition preorder (out : string) (separator : string) : M string :=
  ret out.
Definition postorder (out : string) (separator : string) : M string :=
  ret out.

(** [indent + 8] on a 32-bit [int]: signed overflow is undefined. *)
Definition INT_MIN : Z := -2147483648.
Definition INT_MAX : Z := 2147483647.
Definition int_add (a b : Z) : M Z :=
  if bool_decide (INT_MIN ≤ a + b ≤ INT_MAX)%Z then ret (a + b)%Z
  else undefined.

(** [graphAux(out, indent, subtreeRoot)] *)
Fixpoint graphAux (fuel : nat) (out : string) (indent : Z)
    (subtreeRoot : ptr) : M string :=
  match fuel with
  | O => out_of_fuel
  | S fuel =>
      if not_null subtreeRoot then
        nd ← load subtreeRoot;
        indent' ← int_add indent 8;
        out ← graphAux fuel out indent' (right nd);
        let out := out +:+ setw indent " " +:+ show (data nd) +:+ endl in
        indent' ← int_add indent 8;
        graphAux fuel out indent' (left nd)
      else ret (out +:+ setw indent " " +:+ "_" +:+ endl)
  end.

(** [graph(out)] *)
Definition graph (fuel : nat) (out : string) : M string :=
  root ← get_myRoot; graphAux fuel out 0 root.

(** ** A caller *)

(** A caller that inserts the items one after the other and catches the
    exception of a duplicate. *)
Fixpoint insert_all (fuel : nat) (items : list DataType) : M unit :=
  match items with
  | [] => ret tt
  | item :: items =>
      fun w =>
        match insert fuel item w with
        | Ok _ w' | Throw _ w' => insert_all fuel items w'
        | Undefined => Undefined
        | OutOfFuel => OutOfFuel
        end
  end.

(** ** Specification vocabulary *)

Definition root_of (t : tree) : ptr :=
  match t with
  | Leaf => None
  | Node l _ _ _ => Some l
  end.

(** Every node of [t] is allocated in [h] with the value and the two links
    that [t] gives it. *)
Fixpoint shape (h : gmap loc BinNode) (t : tree) : Prop :=
  match t with
  | Leaf => True
  | Node l tl d tr =>
      h !! l = Some (mkBinNode d (root_of tl) (root_of tr))
      ∧ shape h tl ∧ shape h tr
  end.

Fixpoint locs (t : tree) : list loc :=
  match t with
  | Leaf => []
  | Node l tl _ tr => l :: locs tl ++ locs tr
  end.

(** The values in left-value-right order. *)
Fixpoint elements (t : tree) : list DataType :=
  match t with
  | Leaf => []
  | Node _ tl d tr => elements tl ++ d :: elements tr
  end.

Fixpoint height (t : tree) : nat :=
  match t with
  | Leaf => 0
  | Node _ tl _ tr => S (height tl `max` height tr)
  end.

(** [myRoot] points to [t]: the nodes are laid out as [t] says and no node
    is shared between two places of [t]. *)
Definition is_tree (w : world) (t : tree) : Prop :=
  myRoot w = root_of t ∧ shape (heap w) t ∧ NoDup (locs t).

(** The order invariant: left subtree strictly less, right subtree strictly
    greater, at every node. *)
Fixpoint bst (t : tree) : Prop :=
  match t with
  | Leaf => True
  | Node _ tl d tr =>
      Forall (fun x => lt x d = true) (elements tl)
      ∧ Forall (fun x => lt d x = true) (elements tr)
      ∧ bst tl ∧ bst tr
  end.

Definition ascending (l : list DataType) : Prop :=
  StronglySorted (fun a b => lt a b = true) l.

(** [operator<] is a strict total order. *)
Record strict_total (f : DataType → DataType → bool) : Prop := {
  st_irrefl : ∀ a, f a a = false;
  st_trans : ∀ a b c, f a b = true → f b c = true → f a c = true;
  st_total : ∀ a b, f a b = false → f b a = false → a = b
}.

(** What the loop of [insert] leaves in [(locptr, parent, found)] when it
    walks [t] starting with [parent]. *)
Fixpoint descend (item : DataType) (t : tree) (parent : ptr)
    : ptr * ptr * bool :=
  match t with
  | Leaf => (None, parent, false)
  | Node l tl d tr =>
      if lt item d then descend item tl (Some l)
      else if lt d item then descend item tr (Some l)
      else (Some l, Some l, true)
  end.

(** The tree after [item] went into a node at [new]. *)
Fixpoint ins (new : loc) (item : DataType) (t : tree) : tree :=
  match t with
  | Leaf => Node new Leaf item Leaf
  | Node l tl d tr =>
      if lt item d then Node l (ins new item tl) d tr
      else if lt d item then Node l tl d (ins new item tr)
      else t
  end.

(** The heap after [insert] hung the node at [new] below the node [pn] at
    [p]: on the left when [item < pn.data], else on the right. *)
Definition link (item : DataType) (new p : loc) (pn : BinNode)
    (h : gmap loc BinNode) : gmap loc BinNode :=
  <[p := if lt item (data pn)
         then mkBinNode (data pn) (Some new) (right pn)
         else mkBinNode (data pn) (left pn) (Some new)]>
    (<[new := BinNode_item item]> h).

(** The node on which the descent of [insert] stopped. *)
Definition last_visited (item : DataType) (t : tree) : ptr :=
  (descend item t None).1.2.

(** How [insert] hangs the new node at [new] into the world [w] to get
    [w']: as the root when no node was visited; else below the last visited
    node, on the left when [item] is less than its value and on the right
    when greater, over a link that was null, changing nothing else. *)
Definition linked_below (item : DataType) (new : loc) (t : tree)
    (w w' : world) : Prop :=
  match last_visited item t with
  | None =>
      t = Leaf ∧ myRoot w' = Some new
      ∧ heap w' = <[new := mkBinNode item None None]> (heap w)
  | Some p =>
      ∃ pn, heap w !! p = Some pn ∧ p ∈ locs t
        ∧ myRoot w' = myRoot w
        ∧ (if lt item (data pn) then
             left pn = None
             ∧ heap w' =
                 <[p := mkBinNode (data pn) (Some new) (right pn)]>
                   (<[new := mkBinNode item None None]> (heap w))
           else
             lt (data pn) item = true ∧ right pn = None
             ∧ heap w' =
                 <[p := mkBinNode (data pn) (left pn) (Some new)]>
                   (<[new := mkBinNode item None None]> (heap w)))
  end.

(** The leftmost node of a tree: where it lives, its value and its right
    subtree.  In the right subtree of a node this is the inorder
    successor. *)
Fixpoint leftmost (t : tree) : option (loc * DataType * tree) :=
  match t with
  | Leaf => None
  | Node l tl d tr =>
      match leftmost tl with
      | None => Some (l, d, tr)
      | Some m => Some m
      end
  end.

(** The parent of the leftmost node of [t] when the parent of the root of
    [t] is [parent]. *)
Fixpoint leftmost_parent (t : tree) (parent : ptr) : ptr :=
  match t with
  | Leaf => parent
  | Node l tl _ _ =>
      match tl with
      | Leaf => parent
      | Node _ _ _ _ => leftmost_parent tl (Some l)
      end
  end.

(** [t] without its leftmost node, whose right subtree takes its place. *)
Fixpoint del_leftmost (t : tree) : tree :=
  match t with
  | Leaf => Leaf
  | Node l tl d tr =>
      match tl with
      | Leaf => tr
      | Node _ _ _ _ => Node l (del_leftmost tl) d tr
      end
  end.

(** The subtree of [t] whose root lives at [x] ([Leaf] when there is
    none). *)
Fixpoint subtree_at (x : loc) (t : tree) : tree :=
  match t with
  | Leaf => Leaf
  | Node l tl d tr =>
      if decide (l = x) then t
      else match subtree_at x tl with
           | Leaf => subtree_at x tr
           | Node _ _ _ _ as s => s
           end
  end.

(** [t] with the subtree rooted at [x] replaced by [s]. *)
Fixpoint replace_at (x : loc) (s : tree) (t : tree) : tree :=
  match t with
  | Leaf => Leaf
  | Node l tl d tr =>
      if decide (l = x) then s
      else Node l (replace_at x s tl) d (replace_at x s tr)
  end.

(** The tree after the two-children case of [remove] worked on the node at
    [x]: the node keeps its place and its left subtree, takes the value of
    its inorder successor, and its right subtree loses the successor. *)
Definition remove_two (x : loc) (t : tree) : tree :=
  match subtree_at x t with
  | Leaf => t
  | Node _ tl _ tr =>
      match leftmost tr with
      | None => t
      | Some (_, ds, _) => replace_at x (Node x tl ds (del_leftmost tr)) t
      end
  end.

(** [y] is reached from [b] by following [left] links only. *)
Inductive left_spine (h : gmap loc BinNode) : loc → loc → Prop :=
| spine_here b : left_spine h b b
| spine_left b bn c y :
    h !! b = Some bn → left bn = Some c → left_spine h c y →
    left_spine h b y.

(** The heap that the two-children case leaves: the value of the successor
    [sn] at [xs] is written into the node at [x], the link of the parent
    [ps] that led to [xs] takes the right subtree of [xs], and [xs] is
    freed. *)
Definition spliced (x : loc) (xn : BinNode) (xs : loc) (sn : BinNode)
    (ps : loc) (pn : BinNode) (h : gmap loc BinNode) : gmap loc BinNode :=
  delete xs
    (<[ps := if decide (ps = x)
             then mkBinNode (data sn) (left xn) (right sn)
             else mkBinNode (data pn) (right sn) (right pn)]>
       (<[x := mkBinNode (data sn) (left xn) (right xn)]> h)).

(** What the documentation of [search2] promises to leave in
    [(found, locptr, parent)]: the node that holds [item] and its parent,
    null for the root; nothing when [item] is not there. *)
Fixpoint locate (item : DataType) (t : tree) (parent : ptr)
    : bool * ptr * ptr :=
  match t with
  | Leaf => (false, None, None)
  | Node l tl d tr =>
      if lt item d then locate item tl (Some l)
      else if lt d item then locate item tr (Some l)
      else (true, Some l, parent)
  end.

(** The parent of the node at [x] in [t]; none for the root and for a
    location that is not in [t]. *)
Fixpoint parent_of (x : loc) (t : tree) : ptr :=
  match t with
  | Leaf => None
  | Node l tl _ tr =>
      if decide (root_of tl = Some x) then Some l
      else if decide (root_of tr = Some x) then Some l
      else match parent_of x tl with
           | Some p => Some p
           | None => parent_of x tr
           end
  end.

(** The heap after the node at [x], which has at most one child, is taken
    out below its parent [pn] at [p]: the link of [p] that led to [x] takes
    [sub], the child of [x] or null, and [x] is freed. *)
Definition unlinked (x : loc) (sub : ptr) (p : loc) (pn : BinNode)
    (h : gmap loc BinNode) : gmap loc BinNode :=
  delete x
    (<[p := if ptr_eqb (left pn) (Some x)
            then mkBinNode (data pn) sub (right pn)
            else mkBinNode (data pn) (left pn) sub]> h).

(** The only child of a node that has at most one, as a tree. *)
Definition only_child (tl tr : tree) : tree :=
  match tl with
  | Leaf => tr
  | Node _ _ _ _ => tl
  end.

(** The tree after [remove] worked on the node at [x]: with at most one
    child, the child takes the place of the node; with two, see
    [remove_two]. *)
Definition remove_node (x : loc) (t : tree) : tree :=
  match subtree_at x t with
  | Leaf => t
  | Node _ Leaf _ tr => replace_at x tr t
  | Node _ tl _ Leaf => replace_at x tl t
  | Node _ _ _ _ => remove_two x t
  end.

(** The text of the three classical traversals: every value followed by
    the separator. *)
Fixpoint inorder_text (separator : string) (t : tree) : string :=
  match t with
  | Leaf => ""
  | Node _ tl d tr =>
      inorder_text separator tl +:+ (show d +:+ separator)
      +:+ inorder_text separator tr
  end.

Fixpoint preorder_text (separator : string) (t : tree) : string :=
  match t with
  | Leaf => ""
  | Node _ tl d tr =>
      (show d +:+ separator) +:+ preorder_text separator tl
      +:+ preorder_text separator tr
  end.

Fixpoint postorder_text (separator : string) (t : tree) : string :=
  match t with
  | Leaf => ""
  | Node _ tl d tr =>
      postorder_text separator tl +:+ postorder_text separator tr
      +:+ (show d +:+ separator)
  end.

(** One line of the sideways picture: [text] after [col] blanks. *)
Definition line (col : nat) (text : string) : string :=
  spaces col +:+ text +:+ endl.

(** The picture as the specification words it: right subtree one step
    further in, the value at the current indent, left subtree one step
    further in, ["_"] for an absent child. *)
Fixpoint graph_spec (indent : Z) (t : tree) : string :=
  match t with
  | Leaf => line (Z.to_nat indent) "_"
  | Node _ tl d tr =>
      graph_spec (indent + 8) tr
      +:+ line (Z.to_nat indent) (show d)
      +:+ graph_spec (indent + 8) tl
  end.

(** The picture with every line after at least one blank. *)
Fixpoint graph_text (indent : Z) (t : tree) : string :=
  match t with
  | Leaf => line (Z.to_nat (indent `max` 1)) "_"
  | Node _ tl d tr =>
      graph_text (indent + 8) tr
      +:+ line (Z.to_nat (indent `max` 1)) (show d)
      +:+ graph_text (indent + 8) tl
  end.

(** The elements of a list, each followed by the separator. *)
Fixpoint joined (separator : string) (l : list DataType) : string :=
  match l with
  | [] => ""
  | d :: l => (show d +:+ separator) +:+ joined separator l
  end.

(** The rows of the sideways picture from top to bottom: the depth of the
    row and the value on it, none for the placeholder of an absent child. *)
Fixpoint graph_rows (depth : nat) (t : tree) : list (nat * option DataType) :=
  match t with
  | Leaf => [(depth, None)]
  | Node _ tl d tr =>
      graph_rows (S depth) tr ++ (depth, Some d) :: graph_rows (S depth) tl
  end.

(** A row as text: 8 blanks for each level of depth, but at least one, and
    then the value or the placeholder. *)
Definition row_text (r : nat * option DataType) : string :=
  spaces (Z.to_nat ((8 * Z.of_nat r.1) `max` 1))
  +:+ match r.2 with
      | Some d => show d
      | None => "_"
      end.

(** Lines written one after the other, each ended by [endl]. *)
Fixpoint unlines (ls : list string) : string :=
  match ls with
  | [] => ""
  | l :: ls => (l +:+ endl) +:+ unlines ls
  end.

(** No exception escapes the computation, whatever world it starts in. *)
Definition no_throw {A} (m : M A) : Prop :=
  ∀ w what w', m w ≠ Throw what w'.

(** A tree in which no node has a left child: a list hanging to the
    right. *)
Fixpoint right_list (t : tree) : Prop :=
  match t with
  | Leaf => True
  | Node _ tl _ tr => tl = Leaf ∧ right_list tr
  end.

End BST.

(** ** The scenario of the specification, with [int] elements

    The tree that inserting 5, 3, 8, 1, 4, 7, 9 into an empty tree builds,
    as a heap and as a shape, and smaller worlds used below. *)

Definition int_show (z : Z) : string := pretty z.

Definition w_empty : world Z := BST_new ∅.

Definition w_5 : world Z :=
  mkWorld {[ 1%positive := mkBinNode 5%Z None None ]} (Some 1%positive).
Definition t_5 : tree Z := Node 1%positive Leaf 5%Z Leaf.

Definition w_531 : world Z :=
  mkWorld
    (<[ 1%positive := mkBinNode 5%Z (Some 2%positive) None ]>
       (<[ 2%positive := mkBinNode 3%Z (Some 3%positive) None ]>
          {[ 3%positive := mkBinNode 1%Z None None ]}))
    (Some 1%positive).

Definition w_scenario : world Z :=
  mkWorld
    (list_to_map
       [ (1%positive, mkBinNode 5%Z (Some 2%positive) (Some 3%positive));
         (2%positive, mkBinNode 3%Z (Some 4%positive) (Some 5%positive));
         (3%positive, mkBinNode 8%Z (Some 6%positive) (Some 7%positive));
         (4%positive, mkBinNode 1%Z None None);
         (5%positive, mkBinNode 4%Z None None);
         (6%positive, mkBinNode 7%Z None None);
         (7%positive, mkBinNode 9%Z None None) ])
    (Some 1%positive).

Definition t_scenario : tree Z :=
  Node 1%positive
    (Node 2%positive (Node 4%positive Leaf 1%Z Leaf) 3%Z
                     (Node 5%positive Leaf 4%Z Leaf))
    5%Z
    (Node 3%positive (Node 6%positive Leaf 7%Z Leaf) 8%Z
                     (Node 7%positive Leaf 9%Z Leaf)).

(** The scenario with 8 as the right child of the root and no 7: the right
    child of the root is itself the successor of the root. *)
Definition w_right_succ : world Z :=
  mkWorld
    (list_to_map
       [ (1%positive, mkBinNode 5%Z (Some 2%positive) (Some 3%positive));
         (2%positive, mkBinNode 3%Z None None);
         (3%positive, mkBinNode 8%Z None (Some 4%positive));
         (4%positive, mkBinNode 9%Z None None) ])
    (Some 1%positive).

Definition t_right_succ : tree Z :=
  Node 1%positive
    (Node 2%positive Leaf 3%Z Leaf)
    5%Z
    (Node 3%positive Leaf 8%Z (Node 4%positive Leaf 9%Z Leaf)).

(** Goals about these concrete worlds are settled by evaluation. *)
Ltac solve_decidable :=
  refine (bool_decide_unpack _ _); vm_compute; exact I.
Ltac solve_shape := simpl; repeat split; vm_compute; reflexivity.
Ltac solve_is_tree :=
  split; [reflexivity | split; [solve_shape | solve_decidable]].
Ltac solve_bst := simpl; repeat split; repeat constructor.

Section proofs.

Context {DataType : Type}.
Variable lt : DataType → DataType → bool.
Variable show : DataType → string.

Abbreviation BinNode := (BinNode DataType).
Abbreviation world := (world DataType).
Abbreviation M := (M DataType).
Abbreviation tree := (tree DataType).

(** ** Running computations *)

Lemma bind_Ok {A B} (m : M A) (k : A → M B) w a w' :
  m w = Ok a w' → (m ≫= k) w = k a w'.
Proof. intros H. unfold mbind, M_bind, bind. by rewrite H. Qed.

Lemma load_Some l nd (w : world) :
  heap w !! l = Some nd → load (Some l) w = Ok nd w.
Proof. intros H. unfold load. by rewrite H. Qed.

Lemma store_Some l nd nd' (w : world) :
  heap w !! l = Some nd →
  store (Some l) nd' w = Ok tt (mkWorld (<[l := nd']> (heap w)) (myRoot w)).
Proof. intros H. unfold store. by rewrite H. Qed.

Lemma delete_node_Some l nd (w : world) :
  heap w !! l = Some nd →
  delete_node (Some l) w = Ok tt (mkWorld (delete l (heap w)) (myRoot w)).
Proof. intros H. unfold delete_node. by rewrite H. Qed.

Lemma set_left_Some l nd q (w : world) :
  heap w !! l = Some nd →
  set_left (Some l) q w =
    Ok tt (mkWorld (<[l := mkBinNode (data nd) q (right nd)]> (heap w))
                   (myRoot w)).
Proof.
  intros H. unfold set_left.
  rewrite (bind_Ok _ _ _ _ _ (load_Some _ _ _ H)).
  by apply store_Some with nd.
Qed.

Lemma set_right_Some l nd q (w : world) :
  heap w !! l = Some nd →
  set_right (Some l) q w =
    Ok tt (mkWorld (<[l := mkBinNode (data nd) (left nd) q]> (heap w))
                   (myRoot w)).
Proof.
  intros H. unfold set_right.
  rewrite (bind_Ok _ _ _ _ _ (load_Some _ _ _ H)).
  by apply store_Some with nd.
Qed.

Lemma set_data_Some l nd d (w : world) :
  heap w !! l = Some nd →
  set_data (Some l) d w =
    Ok tt (mkWorld (<[l := mkBinNode d (left nd) (right nd)]> (heap w))
                   (myRoot w)).
Proof.
  intros H. unfold set_data.
  rewrite (bind_Ok _ _ _ _ _ (load_Some _ _ _ H)).
  by apply store_Some with nd.
Qed.

(** ** Shapes and heap updates *)

Lemma shape_insert_fresh (h : gmap loc BinNode) (t : tree) l nd :
  l ∉ locs t → shape h t → shape (<[l := nd]> h) t.
Proof.
  induction t as [|l' tl IHl d tr IHr]; simpl; [done|].
  rewrite not_elem_of_cons, not_elem_of_app.
  intros (Hne & Hl & Hr) (Hh & Hsl & Hsr).
  rewrite lookup_insert_ne by done. auto.
Qed.

Lemma shape_delete_fresh (h : gmap loc BinNode) (t : tree) l :
  l ∉ locs t → shape h t → shape (delete l h) t.
Proof.
  induction t as [|l' tl IHl d tr IHr]; simpl; [done|].
  rewrite not_elem_of_cons, not_elem_of_app.
  intros (Hne & Hl & Hr) (Hh & Hsl & Hsr).
  rewrite lookup_delete_ne by done. auto.
Qed.

Lemma shape_allocated (h : gmap loc BinNode) (t : tree) l :
  shape h t → l ∈ locs t → is_Some (h !! l).
Proof.
  induction t as [|l' tl IHl d tr IHr]; simpl; [by rewrite elem_of_nil|].
  rewrite elem_of_cons, elem_of_app.
  intros (Hh & Hsl & Hsr) [->|[?|?]]; eauto.
Qed.

(** ** The descent of [insert] *)

Lemma insert_loop_descend fuel item (t : tree) parent (w : world) :
  shape (heap w) t → height t ≤ fuel →
  insert_loop lt fuel item (root_of t) parent false w
  = Ok (descend lt item t parent) w.
Proof.
  revert fuel parent.
  induction t as [|l tl IHl d tr IHr]; intros fuel parent Hs Hf.
  - by destruct fuel.
  - destruct fuel as [|fuel]; simpl in Hf; [lia|].
    destruct Hs as (Hh & Hsl & Hsr). simpl.
    rewrite (bind_Ok _ _ _ _ _ (load_Some _ _ _ Hh)). simpl.
    destruct (lt item d); [apply IHl; [done|lia]|].
    destruct (lt d item); [apply IHr; [done|lia]|].
    by destruct fuel.
Qed.

(** ** The order and the descent *)

Section order.
Hypothesis lt_order : strict_total lt.

Lemma lt_asym a b : lt a b = true → lt b a = false.
Proof.
  intros Hab. destruct (lt b a) eqn:Hba; [|done].
  pose proof (st_trans _ lt_order _ _ _ Hab Hba) as Haa.
  by rewrite (st_irrefl _ lt_order) in Haa.
Qed.

Lemma descend_found item (t : tree) parent :
  bst lt t → item ∈ elements t →
  ∃ l, l ∈ locs t ∧ descend lt item t parent = (Some l, Some l, true).
Proof.
  revert parent.
  induction t as [|l tl IHl d tr IHr]; intros parent Hb Hin; simpl in *.
  { by apply elem_of_nil in Hin. }
  destruct Hb as (Hlt & Hgt & Hbl & Hbr).
  rewrite Forall_forall in Hlt, Hgt.
  apply elem_of_app in Hin as [Hin|Hin]; [|apply elem_of_cons in Hin as [->|Hin]].
  - rewrite (Hlt _ Hin).
    destruct (IHl (Some l) Hbl Hin) as (l' & Hl' & ->).
    exists l'. split; [|done]. rewrite elem_of_cons, elem_of_app. auto.
  - rewrite (st_irrefl _ lt_order). exists l. split; [|done]. left.
  - rewrite (lt_asym _ _ (Hgt _ Hin)), (Hgt _ Hin).
    destruct (IHr (Some l) Hbr Hin) as (l' & Hl' & ->).
    exists l'. split; [|done]. rewrite elem_of_cons, elem_of_app. auto.
Qed.

Lemma descend_absent item (t : tree) parent :
  item ∉ elements t →
  ∃ p, descend lt item t parent = (None, p, false).
Proof.
  revert parent.
  induction t as [|l tl IHl d tr IHr]; intros parent Hin; simpl in *.
  { by eexists. }
  rewrite not_elem_of_app, not_elem_of_cons in Hin.
  destruct Hin as (Hl & Hd & Hr).
  destruct (lt item d) eqn:H1; [by apply IHl|].
  destruct (lt d item) eqn:H2; [by apply IHr|].
  destruct Hd. by apply (st_total _ lt_order).
Qed.

(** ** The tree after an insertion *)

Lemma elements_ins new item (t : tree) :
  item ∉ elements t →
  elements (ins lt new item t) ≡ₚ item :: elements t.
Proof.
  induction t as [|l tl IHl d tr IHr]; simpl; [done|].
  rewrite not_elem_of_app, not_elem_of_cons.
  intros (Hl & Hd & Hr).
  destruct (lt item d) eqn:H1; simpl.
  { by rewrite (IHl Hl). }
  destruct (lt d item) eqn:H2; simpl.
  { rewrite (IHr Hr). rewrite <- !Permutation_middle. apply perm_swap. }
  destruct Hd. by apply (st_total _ lt_order).
Qed.

Lemma locs_ins new item (t : tree) :
  item ∉ elements t →
  locs (ins lt new item t) ≡ₚ new :: locs t.
Proof.
  induction t as [|l tl IHl d tr IHr]; simpl; [done|].
  rewrite not_elem_of_app, not_elem_of_cons.
  intros (Hl & Hd & Hr).
  destruct (lt item d) eqn:H1; simpl.
  { rewrite (IHl Hl). simpl. apply perm_swap. }
  destruct (lt d item) eqn:H2; simpl.
  { rewrite (IHr Hr). rewrite <- Permutation_middle. apply perm_swap. }
  destruct Hd. by apply (st_total _ lt_order).
Qed.

Lemma root_of_ins new item (t : tree) :
  t ≠ Leaf → root_of (ins lt new item t) = root_of t.
Proof.
  destruct t as [|l tl d tr]; [done|]. intros _. simpl.
  destruct (lt item d); [done|]. by destruct (lt d item).
Qed.

Lemma bst_ins new item (t : tree) :
  item ∉ elements t → bst lt t → bst lt (ins lt new item t).
Proof.
  induction t as [|l tl IHl d tr IHr]; simpl.
  { intros _ _. repeat split; constructor. }
  rewrite not_elem_of_app, not_elem_of_cons.
  intros (Hl & Hd & Hr) (Hlt & Hgt & Hbl & Hbr).
  destruct (lt item d) eqn:H1; simpl.
  { repeat split; auto. rewrite (elements_ins _ _ _ Hl). by constructor. }
  destruct (lt d item) eqn:H2; simpl.
  { repeat split; auto. rewrite (elements_ins _ _ _ Hr). by constructor. }
  destruct Hd. by apply (st_total _ lt_order).
Qed.

Lemma bst_ascending (t : tree) : bst lt t → ascending lt (elements t).
Proof.
  unfold ascending.
  induction t as [|l tl IHl d tr IHr]; simpl; [constructor|].
  intros (Hlt & Hgt & Hbl & Hbr).
  apply StronglySorted_app. split_and!; [|by auto|].
  - intros x1 x2 Hx1 Hx2. rewrite Forall_forall in Hlt, Hgt.
    apply elem_of_cons in Hx2 as [->|Hx2]; [by apply Hlt|].
    apply (st_trans _ lt_order _ d); auto.
  - apply StronglySorted_cons. auto.
Qed.

Lemma ascending_NoDup l : ascending lt l → NoDup l.
Proof.
  unfold ascending. induction l as [|a l IH].
  { constructor. }
  rewrite StronglySorted_cons. intros (Ha & Hl).
  constructor; [|by auto].
  intros Hin. rewrite Forall_forall in Ha.
  specialize (Ha _ Hin). by rewrite (st_irrefl _ lt_order) in Ha.
Qed.

Lemma leaf_dec (t : tree) : {t = Leaf} + {t ≠ Leaf}.
Proof. destruct t; [by left|by right]. Qed.

Lemma shape_link item new (h : gmap loc BinNode) (t : tree) parent :
  t ≠ Leaf → item ∉ elements t →
  shape h t → NoDup (locs t) → new ∉ locs t →
  ∃ p pn,
    descend lt item t parent = (None, Some p, false)
    ∧ p ∈ locs t ∧ h !! p = Some pn
    ∧ (if lt item (data pn) then left pn = None
       else lt (data pn) item = true ∧ right pn = None)
    ∧ shape (link lt item new p pn h) (ins lt new item t).
Proof.
  revert parent.
  induction t as [|l tl IHl d tr IHr]; intros parent Hne Hin Hs Hnd Hnew;
    [done|]. clear Hne. simpl in *.
  rewrite not_elem_of_app, not_elem_of_cons in Hin.
  destruct Hin as (Hinl & Hd & Hinr).
  destruct Hs as (Hh & Hsl & Hsr).
  apply NoDup_cons in Hnd as (Hl & Hnd).
  apply NoDup_app in Hnd as (Hndl & Hdisj & Hndr).
  rewrite not_elem_of_app in Hl. destruct Hl as (Hll & Hlr).
  rewrite not_elem_of_cons, not_elem_of_app in Hnew.
  destruct Hnew as (Hnl & Hnewl & Hnewr).
  destruct (lt item d) eqn:H1; [|destruct (lt d item) eqn:H2].
  - destruct (leaf_dec tl) as [->|Htl].
    + exists l, (mkBinNode d None (root_of tr)).
      split; [done|]. split; [left|]. split; [done|].
      split; [by simpl; rewrite H1|].
      unfold link. simpl. rewrite H1.
      rewrite lookup_insert_eq, lookup_insert_ne, lookup_insert_eq by done.
      repeat split.
      by apply shape_insert_fresh; [|apply shape_insert_fresh].
    + destruct (IHl (Some l) Htl Hinl Hsl Hndl Hnewl)
        as (p & pn & Hdesc & Hp & Hhp & Hside & Hshape).
      exists p, pn. split; [done|].
      split; [by right; apply elem_of_app; left|].
      split; [done|]. split; [done|].
      simpl. rewrite root_of_ins by done.
      assert (l ≠ p) by (intros ->; done).
      unfold link in *.
      rewrite !lookup_insert_ne by done.
      split; [done|]. split; [done|].
      apply shape_insert_fresh; [by apply Hdisj|].
      by apply shape_insert_fresh.
  - destruct (leaf_dec tr) as [->|Htr].
    + exists l, (mkBinNode d (root_of tl) None).
      split; [done|]. split; [left|]. split; [done|].
      split; [by simpl; rewrite H1|].
      unfold link. simpl. rewrite H1.
      rewrite lookup_insert_eq, lookup_insert_ne, lookup_insert_eq by done.
      repeat split.
      by apply shape_insert_fresh; [|apply shape_insert_fresh].
    + destruct (IHr (Some l) Htr Hinr Hsr Hndr Hnewr)
        as (p & pn & Hdesc & Hp & Hhp & Hside & Hshape).
      exists p, pn. split; [done|].
      split; [by right; apply elem_of_app; right|].
      split; [done|]. split; [done|].
      simpl. rewrite root_of_ins by done.
      assert (l ≠ p) by (intros ->; done).
      unfold link in *.
      rewrite !lookup_insert_ne by done.
      split; [done|]. split; [|done].
      apply shape_insert_fresh; [by intros ?; eapply Hdisj|].
      by apply shape_insert_fresh.
  - destruct Hd. by apply (st_total _ lt_order).
Qed.

Lemma is_tree_allocated (w : world) (t : tree) l :
  is_tree w t → l ∈ locs t → is_Some (heap w !! l).
Proof. intros (_ & Hs & _). by apply shape_allocated. Qed.

Lemma fresh_not_in_tree (w : world) (t : tree) :
  is_tree w t → fresh (dom (heap w)) ∉ locs t.
Proof.
  intros Ht Hin. apply (is_tree_allocated _ _ _ Ht) in Hin.
  apply elem_of_dom in Hin. by apply is_fresh in Hin.
Qed.

(** ** insert *)

Lemma insert_found_throws fuel item (w : world) (t : tree) l :
  is_tree w t → height t ≤ fuel →
  descend lt item t None = (Some l, Some l, true) →
  insert lt fuel item w = Throw "Item already in the tree" w.
Proof.
  intros (Hroot & Hs & Hnd) Hf Hdesc.
  unfold insert, mbind, M_bind, bind. simpl.
  rewrite Hroot, (insert_loop_descend fuel item t None w Hs Hf), Hdesc.
  reflexivity.
Qed.

(** The run of [insert] for a value that is not in the tree: the new node
    is linked as [linked_below] says, and the heap is laid out as the tree
    with the value put in. *)
Lemma insert_absent_run fuel item (w : world) (t : tree) :
  is_tree w t → item ∉ elements t → height t ≤ fuel →
  let new := fresh (dom (heap w)) in
  ∃ w',
    insert lt fuel item w = Ok tt w'
    ∧ linked_below lt item new t w w'
    ∧ is_tree w' (ins lt new item t).
Proof using lt_order.
  clear show.
  intros Ht Hin Hf new.
  pose proof (fresh_not_in_tree w t Ht) as Hnew. fold new in Hnew.
  destruct Ht as (Hroot & Hs & Hnd).
  assert (Hfree : heap w !! new = None).
  { apply not_elem_of_dom. apply is_fresh. }
  assert (Hnd' : NoDup (locs (ins lt new item t))).
  { rewrite (locs_ins new item t Hin). by constructor. }
  unfold insert, mbind, M_bind, bind. simpl.
  rewrite Hroot, (insert_loop_descend fuel item t None w Hs Hf).
  unfold linked_below, last_visited.
  destruct (leaf_dec t) as [->|Hne].
  - simpl. eexists. split; [reflexivity|]. simpl. fold new.
    split; [done|].
    split; [done|]. simpl. rewrite lookup_insert_eq. split; [done|].
    by constructor.
  - destruct (shape_link item new (heap w) t None Hne Hin Hs Hnd Hnew)
      as (p & pn & Hdesc & Hp & Hhp & Hside & Hshape).
    rewrite Hdesc. simpl. unfold new_BinNode. simpl. fold new.
    assert (Hpn : p ≠ new) by (intros ->; congruence).
    unfold load. simpl. rewrite lookup_insert_ne, Hhp by done.
    unfold link in Hshape.
    destruct (lt item (data pn)) eqn:Hcmp.
    + erewrite set_left_Some
        by (simpl; rewrite lookup_insert_ne by done; exact Hhp).
      eexists. split; [reflexivity|]. simpl.
      split.
      { exists pn. rewrite Hcmp. split_and!; auto. }
      split; [|split; [done|done]]. simpl.
      by rewrite root_of_ins.
    + erewrite set_right_Some
        by (simpl; rewrite lookup_insert_ne by done; exact Hhp).
      eexists. split; [reflexivity|]. simpl.
      split.
      { exists pn. rewrite Hcmp. destruct Hside. split_and!; auto. }
      split; [|split; [done|done]]. simpl.
      by rewrite root_of_ins.
Qed.

(** What [linked_below] says about the new location and the domain of the
    heap. *)
Lemma linked_below_dom item new (t : tree) (w w' : world) :
  heap w !! new = None →
  linked_below lt item new t w w' →
  heap w' !! new = Some (mkBinNode item None None)
  ∧ dom (heap w') = {[new]} ∪ dom (heap w).
Proof using Type.
  clear show.
  intros Hfree. unfold linked_below.
  destruct (last_visited lt item t) as [p|].
  - intros (pn & Hp & Hin & _ & Hside).
    assert (Hne : p ≠ new) by (intros ->; congruence).
    assert (Hdom : ∀ nd, dom (<[p := nd]>
                     (<[new := mkBinNode item None None]> (heap w)))
                   = {[new]} ∪ dom (heap w)).
    { intros nd. rewrite !dom_insert_L. apply elem_of_dom_2 in Hp.
      apply set_eq. intros y.
      rewrite !elem_of_union, !elem_of_singleton.
      split; [|tauto]. intros [->|?]; tauto. }
    assert (Hnew : ∀ nd,
              <[p := nd]> (<[new := mkBinNode item None None]> (heap w))
                !! new = Some (mkBinNode item None None)).
    { intros nd. by rewrite lookup_insert_ne, lookup_insert_eq. }
    destruct (lt item (data pn)).
    + destruct Hside as (_ & ->). by rewrite Hdom, Hnew.
    + destruct Hside as (_ & _ & ->). by rewrite Hdom, Hnew.
  - intros (_ & _ & ->). by rewrite lookup_insert_eq, dom_insert_L.
Qed.

(** ** Text *)

Lemma append_cons x (a b : string) : String x a +:+ b = String x (a +:+ b).
Proof. reflexivity. Qed.

Lemma append_assoc (a b c : string) : (a +:+ b) +:+ c = a +:+ b +:+ c.
Proof. induction a as [|x a IH]; [done|]. by rewrite !append_cons, IH. Qed.

Lemma append_nil_r (a : string) : a +:+ "" = a.
Proof. induction a as [|x a IH]; [done|]. by rewrite append_cons, IH. Qed.

Lemma spaces_snoc n : spaces n +:+ " " = spaces (S n).
Proof.
  induction n as [|n IH]; [done|].
  change (spaces (S n)) with (String (Ascii.ascii_of_nat 32) (spaces n)).
  rewrite append_cons, IH. reflexivity.
Qed.

(** [setw(w)] before the one-character string [" "] gives [w] blanks, and
    one blank when [w] is below one. *)
Lemma setw_blank (w : Z) : setw w " " = spaces (Z.to_nat (w `max` 1)).
Proof using Type.
  clear show.
  unfold setw. simpl String.length.
  destruct (decide (w ≤ 1)%Z) as [Hw|Hw].
  - replace (Z.to_nat w - 1) with 0 by lia.
    by replace (Z.to_nat (w `max` 1)) with 1 by lia.
  - replace (Z.to_nat (w `max` 1)) with (S (Z.to_nat w - 1)) by lia.
    apply spaces_snoc.
Qed.

(** ** Traversals *)

Lemma inorderAux_text fuel out separator (t : tree) (w : world) :
  shape (heap w) t → height t < fuel →
  inorderAux show fuel out (root_of t) separator w
  = Ok (out +:+ inorder_text show separator t) w.
Proof.
  revert fuel out.
  induction t as [|l tl IHl d tr IHr]; intros fuel out Hs Hf;
    (destruct fuel as [|fuel]; [simpl in Hf; lia|]); simpl in *.
  - by rewrite append_nil_r.
  - destruct Hs as (Hh & Hsl & Hsr).
    unfold mbind, M_bind, bind. rewrite (load_Some _ _ _ Hh). simpl.
    rewrite IHl by (done || lia). rewrite IHr by (done || lia).
    by rewrite !append_assoc.
Qed.

Lemma int_add_in_range (a b : Z) (w : world) :
  (INT_MIN ≤ a + b ≤ INT_MAX)%Z → int_add a b w = Ok (a + b)%Z w.
Proof using Type.
  clear show. intros H. unfold int_add. by rewrite bool_decide_eq_true_2.
Qed.

Lemma graphAux_text fuel out indent (t : tree) (w : world) :
  shape (heap w) t → height t < fuel →
  (0 ≤ indent)%Z → (indent + 8 * Z.of_nat (height t) ≤ INT_MAX)%Z →
  graphAux show fuel out indent (root_of t) w
  = Ok (out +:+ graph_text show indent t) w.
Proof.
  revert fuel out indent.
  induction t as [|l tl IHl d tr IHr]; intros fuel out indent Hs Hf H0 Hmax;
    (destruct fuel as [|fuel]; [simpl in Hf; lia|]); simpl in *.
  - unfold ret, line. by rewrite setw_blank.
  - destruct Hs as (Hh & Hsl & Hsr).
    assert (INT_MIN ≤ indent + 8 ≤ INT_MAX)%Z as Hadd
      by (unfold INT_MIN; lia).
    unfold mbind, M_bind, bind. rewrite (load_Some _ _ _ Hh). simpl.
    rewrite (int_add_in_range _ _ _ Hadd).
    rewrite IHr by (done || lia).
    rewrite (int_add_in_range _ _ _ Hadd).
    rewrite IHl by (done || lia).
    unfold line. rewrite setw_blank. by rewrite !append_assoc.
Qed.

(** ** The inorder successor *)

Lemma leftmost_None (t : tree) : leftmost t = None → t = Leaf.
Proof.
  destruct t as [|l tl d tr]; [done|]. simpl.
  by destruct (leftmost tl) as [m|].
Qed.

Lemma leftmost_Node l (tl : tree) d tr :
  tl ≠ Leaf → leftmost (Node l tl d tr) = leftmost tl.
Proof.
  intros Hne. simpl. destruct (leftmost tl) as [m|] eqn:Hm; [done|].
  by apply leftmost_None in Hm.
Qed.

Lemma leftmost_elements (t : tree) xs ds rs :
  leftmost t = Some (xs, ds, rs) →
  elements t = ds :: elements (del_leftmost t).
Proof.
  induction t as [|l tl IHl d tr IHr]; [done|].
  destruct (leaf_dec tl) as [->|Hne].
  - simpl. by intros [= _ -> _].
  - rewrite leftmost_Node by done. intros Hm.
    simpl. rewrite (IHl Hm). by destruct tl.
Qed.

Lemma leftmost_locs (t : tree) xs ds rs :
  leftmost t = Some (xs, ds, rs) →
  locs t ≡ₚ xs :: locs (del_leftmost t).
Proof.
  induction t as [|l tl IHl d tr IHr]; [done|].
  destruct (leaf_dec tl) as [->|Hne].
  - simpl. by intros [= -> _ _].
  - rewrite leftmost_Node by done. intros Hm.
    simpl. rewrite (IHl Hm). destruct tl; [done|]. simpl. apply perm_swap.
Qed.

Lemma leftmost_in (t : tree) xs ds rs :
  leftmost t = Some (xs, ds, rs) → xs ∈ locs t.
Proof. intros Hm. rewrite (leftmost_locs _ _ _ _ Hm). left. Qed.

(** The leftmost node has no left child, and it is reached from the root by
    left links. *)
Lemma leftmost_node (h : gmap loc BinNode) l (tl : tree) d tr xs ds rs :
  shape h (Node l tl d tr) → leftmost (Node l tl d tr) = Some (xs, ds, rs) →
  h !! xs = Some (mkBinNode ds None (root_of rs)) ∧ left_spine h l xs.
Proof.
  revert l d tr.
  induction tl as [|l2 tl2 IHl d2 tr2 _]; intros l d tr Hs Hm.
  - simpl in Hm. injection Hm as -> -> ->.
    destruct Hs as (Hh & _). split; [done|constructor].
  - rewrite leftmost_Node in Hm by done.
    destruct Hs as (Hh & Hsl & _).
    destruct (IHl _ _ _ Hsl Hm) as (Hxs & Hspine).
    split; [done|]. by eapply spine_left.
Qed.

(** Below a root that has a left child, the tracked parent is a node of the
    tree whose left link is the leftmost node. *)
Lemma leftmost_parent_node (h : gmap loc BinNode) l (tl : tree) d tr
    parent xs ds rs :
  tl ≠ Leaf →
  shape h (Node l tl d tr) → leftmost (Node l tl d tr) = Some (xs, ds, rs) →
  ∃ ps dp (rp : tree),
    leftmost_parent (Node l tl d tr) parent = Some ps
    ∧ ps ∈ locs (Node l tl d tr)
    ∧ h !! ps = Some (mkBinNode dp (Some xs) (root_of rp))
    ∧ left_spine h l ps.
Proof.
  revert l d tr parent.
  induction tl as [|l2 tl2 IHl d2 tr2 _]; intros l d tr parent Hne Hs Hm;
    [done|]. clear Hne.
  rewrite leftmost_Node in Hm by done.
  destruct Hs as (Hh & Hsl & _).
  destruct (leaf_dec tl2) as [->|Hne2].
  - simpl in Hm. injection Hm as -> -> ->.
    exists l, d, tr. split; [done|]. split; [left|].
    split; [done|constructor].
  - destruct (IHl l2 d2 tr2 (Some l) Hne2 Hsl Hm)
      as (ps & dp & rp & Hps & Hin & Hhps & Hspine).
    exists ps, dp, rp.
    split. { destruct tl2; [done|]. exact Hps. }
    split. { right. apply elem_of_app. by left. }
    split; [done|]. by eapply spine_left.
Qed.

Lemma succ_loop_leftmost fuel (t : tree) parent (w : world) xs ds rs :
  shape (heap w) t → height t ≤ fuel →
  leftmost t = Some (xs, ds, rs) →
  succ_loop fuel (root_of t) parent w
  = Ok (Some xs, leftmost_parent t parent) w.
Proof.
  revert fuel parent.
  induction t as [|l tl IHl d tr _]; intros fuel parent Hs Hf Hm; [done|].
  destruct Hs as (Hh & Hsl & _).
  destruct (leaf_dec tl) as [->|Hne].
  - simpl in Hm. injection Hm as -> -> ->.
    destruct fuel; simpl; unfold mbind, M_bind, bind;
      by rewrite (load_Some _ _ _ Hh).
  - rewrite leftmost_Node in Hm by done.
    destruct fuel as [|fuel]; [simpl in Hf; lia|].
    simpl in Hf. simpl. unfold mbind, M_bind, bind.
    rewrite (load_Some _ _ _ Hh). simpl.
    destruct tl as [|l2 tl2 d2 tr2]; [done|].
    change (not_null (Some l2)) with true. cbv iota.
    apply (IHl fuel (Some l)); [done|lia|done].
Qed.

(** Taking the leftmost node out of the heap: its parent's left link takes
    its right subtree. *)
Lemma shape_del_leftmost (h : gmap loc BinNode) l (tl : tree) d tr
    parent xs ds rs ps pn :
  tl ≠ Leaf →
  shape h (Node l tl d tr) → NoDup (locs (Node l tl d tr)) →
  leftmost (Node l tl d tr) = Some (xs, ds, rs) →
  leftmost_parent (Node l tl d tr) parent = Some ps →
  h !! ps = Some pn →
  shape (delete xs (<[ps := mkBinNode (data pn) (root_of rs) (right pn)]> h))
        (del_leftmost (Node l tl d tr)).
Proof.
  revert l d tr parent.
  induction tl as [|l2 tl2 IHl d2 tr2 _];
    intros l d tr parent Hne Hs Hnd Hm Hps Hpn; [done|]. clear Hne.
  rewrite leftmost_Node in Hm by done.
  destruct Hs as (Hh & Hsl & Hsr).
  apply NoDup_cons in Hnd as (Hl & Hnd).
  apply NoDup_app in Hnd as (Hndl & Hdisj & Hndr).
  rewrite not_elem_of_app in Hl. destruct Hl as (Hll & Hlr).
  pose proof (leftmost_in _ _ _ _ Hm) as Hxs.
  assert (Hne_l : l ≠ xs) by (by intros ->).
  destruct (leaf_dec tl2) as [->|Hne2].
  - simpl in Hm, Hps. injection Hm as -> -> ->. injection Hps as ->.
    rewrite Hh in Hpn. injection Hpn as <-.
    destruct Hsl as (Hh2 & _ & Hsr2).
    apply NoDup_cons in Hndl as (Hl2 & Hndr2). simpl in Hl2, Hndr2.
    simpl. rewrite lookup_delete_ne, lookup_insert_eq by done.
    split; [done|]. split.
    + apply shape_delete_fresh; [done|].
      apply shape_insert_fresh; [|done].
      intros Hin. apply Hll. by right.
    + apply shape_delete_fresh; [by apply Hdisj|].
      by apply shape_insert_fresh.
  - assert (Hps' : leftmost_parent (Node l2 tl2 d2 tr2) (Some l) = Some ps).
    { by destruct tl2. }
    destruct (leftmost_parent_node h l2 tl2 d2 tr2 (Some l) xs ds rs
                Hne2 Hsl Hm) as (ps' & dp & rp & Hps2 & Hin & _ & _).
    rewrite Hps' in Hps2. injection Hps2 as <-.
    assert (Hne_p : l ≠ ps) by (by intros ->).
    pose proof (IHl l2 d2 tr2 (Some l) Hne2 Hsl Hndl Hm Hps' Hpn) as IH.
    change (del_leftmost (Node l (Node l2 tl2 d2 tr2) d tr))
      with (Node l (del_leftmost (Node l2 tl2 d2 tr2)) d tr).
    simpl shape. split; [|split; [done|]].
    + rewrite lookup_delete_ne, lookup_insert_ne by done.
      rewrite Hh. by destruct tl2.
    + apply shape_delete_fresh; [by apply Hdisj|].
      apply shape_insert_fresh; [by apply Hdisj|done].
Qed.

(** ** Subtrees *)

Lemma subtree_at_notin x (t : tree) : x ∉ locs t → subtree_at x t = Leaf.
Proof.
  induction t as [|l tl IHl d tr IHr]; [done|]. simpl.
  rewrite not_elem_of_cons, not_elem_of_app. intros (Hne & Hl & Hr).
  rewrite decide_False by done. by rewrite IHl, IHr.
Qed.

Lemma subtree_at_in x (t : tree) :
  x ∈ locs t → ∃ tl d tr, subtree_at x t = Node x tl d tr.
Proof.
  induction t as [|l tl IHl d tr IHr]; simpl.
  { by rewrite elem_of_nil. }
  rewrite elem_of_cons, elem_of_app. intros Hin.
  destruct (decide (l = x)) as [->|Hne]; [by eauto|].
  destruct Hin as [->|[Hin|Hin]]; [done| |].
  - destruct (IHl Hin) as (tl' & d' & tr' & ->). eauto.
  - destruct (subtree_at x tl) as [|l2 tl2 d2 tr2] eqn:Hsub; [by auto|].
    destruct (decide (x ∈ locs tl)) as [Hin'|Hnin].
    + destruct (IHl Hin') as (tl' & d' & tr' & [= -> -> -> ->]). eauto.
    + by rewrite (subtree_at_notin _ _ Hnin) in Hsub.
Qed.

Lemma subtree_at_locs x (t : tree) l :
  l ∈ locs (subtree_at x t) → l ∈ locs t.
Proof.
  induction t as [|l' tl IHl d tr IHr]; [done|]. simpl.
  destruct (decide (l' = x)) as [->|Hne]; [done|].
  rewrite elem_of_cons, elem_of_app.
  destruct (subtree_at x tl) as [|l2 tl2 d2 tr2]; auto.
Qed.

Lemma subtree_at_shape (h : gmap loc BinNode) x (t : tree) :
  shape h t → shape h (subtree_at x t).
Proof.
  induction t as [|l' tl IHl d tr IHr]; [done|]. simpl.
  destruct (decide (l' = x)) as [->|Hne]; [done|].
  intros (_ & Hsl & Hsr).
  destruct (subtree_at x tl) as [|l2 tl2 d2 tr2]; auto.
Qed.

Lemma subtree_at_NoDup x (t : tree) :
  NoDup (locs t) → NoDup (locs (subtree_at x t)).
Proof.
  induction t as [|l' tl IHl d tr IHr]; [done|]. simpl.
  destruct (decide (l' = x)) as [->|Hne]; [done|].
  rewrite NoDup_cons, NoDup_app. intros (_ & Hl & _ & Hr).
  destruct (subtree_at x tl) as [|l2 tl2 d2 tr2]; auto.
Qed.

Lemma subtree_at_height x (t : tree) : height (subtree_at x t) ≤ height t.
Proof.
  induction t as [|l' tl IHl d tr IHr]; [done|]. simpl.
  destruct (decide (l' = x)) as [->|Hne]; [done|].
  destruct (subtree_at x tl) as [|l2 tl2 d2 tr2]; simpl in *; lia.
Qed.

Lemma replace_at_notin x (s t : tree) : x ∉ locs t → replace_at x s t = t.
Proof.
  induction t as [|l tl IHl d tr IHr]; [done|]. simpl.
  rewrite not_elem_of_cons, not_elem_of_app. intros (Hne & Hl & Hr).
  rewrite decide_False by done. by rewrite IHl, IHr.
Qed.

Lemma root_of_replace_at x (s t : tree) :
  root_of s = Some x → root_of (replace_at x s t) = root_of t.
Proof.
  intros Hs. destruct t as [|l tl d tr]; [done|]. simpl.
  destruct (decide (l = x)) as [->|Hne]; done.
Qed.

(** Replacing the subtree at [x] in a heap that differs from the old one
    only inside that subtree. *)
Lemma shape_replace_at (h h' : gmap loc BinNode) x (s t : tree) :
  NoDup (locs t) → root_of s = Some x →
  (∀ l, l ∈ locs t → l ∉ locs (subtree_at x t) → h' !! l = h !! l) →
  shape h t → (x ∈ locs t → shape h' s) →
  shape h' (replace_at x s t).
Proof.
  intros Hnd Hroot.
  induction t as [|l tl IHl d tr IHr]; intros Hfr Hs Hs'; [done|].
  simpl in *.
  destruct (decide (l = x)) as [->|Hne].
  { apply Hs'. left. }
  apply NoDup_cons in Hnd as (Hl & Hnd).
  apply NoDup_app in Hnd as (Hndl & Hdisj & Hndr).
  rewrite not_elem_of_app in Hl. destruct Hl as (Hll & Hlr).
  destruct Hs as (Hh & Hsl & Hsr).
  simpl. rewrite !root_of_replace_at by done.
  assert (Hsub : ∀ l', l' ∈ locs (match subtree_at x tl with
                                   | Leaf => subtree_at x tr
                                   | Node _ _ _ _ as s0 => s0
                                   end) →
                       (l' ∈ locs (subtree_at x tl))
                       ∨ ((x ∉ locs tl) ∧ l' ∈ locs (subtree_at x tr))).
  { intros l'. destruct (decide (x ∈ locs tl)) as [Hin|Hnin].
    - destruct (subtree_at_in _ _ Hin) as (? & ? & ? & ->). by left.
    - rewrite (subtree_at_notin _ _ Hnin). by right. }
  split; [|split].
  - rewrite Hfr; [done|left|].
    intros Hin. apply Hsub in Hin as [Hin|[_ Hin]];
      apply subtree_at_locs in Hin; done.
  - apply IHl; [done| |done|].
    + intros l' Hin Hnin. apply Hfr; [right; apply elem_of_app; by left|].
      intros Hin'. apply Hsub in Hin' as [Hin'|[_ Hin']]; [done|].
      apply subtree_at_locs in Hin'. by apply (Hdisj l').
    + intros Hin. apply Hs'. right. apply elem_of_app. by left.
  - apply IHr; [done| |done|].
    + intros l' Hin Hnin. apply Hfr; [right; apply elem_of_app; by right|].
      intros Hin'. apply Hsub in Hin' as [Hin'|[_ Hin']]; [|done].
      apply subtree_at_locs in Hin'. by apply (Hdisj l').
    + intros Hin. apply Hs'. right. apply elem_of_app. by right.
Qed.

Lemma subtree_at_Node_l x l (tl : tree) d tr :
  l ≠ x → x ∈ locs tl →
  subtree_at x (Node l tl d tr) = subtree_at x tl.
Proof.
  intros Hne Hin. simpl. rewrite decide_False by done.
  by destruct (subtree_at_in _ _ Hin) as (? & ? & ? & ->).
Qed.

Lemma subtree_at_Node_r x l (tl : tree) d tr :
  l ≠ x → x ∉ locs tl →
  subtree_at x (Node l tl d tr) = subtree_at x tr.
Proof.
  intros Hne Hnin. simpl. rewrite decide_False by done.
  by rewrite (subtree_at_notin _ _ Hnin).
Qed.

Lemma elements_replace_at x (s t : tree) :
  NoDup (locs t) → x ∈ locs t →
  ∃ l1 l2,
    elements t = l1 ++ elements (subtree_at x t) ++ l2
    ∧ elements (replace_at x s t) = l1 ++ elements s ++ l2.
Proof.
  induction t as [|l tl IHl d tr IHr]; intros Hnd Hin.
  { by apply elem_of_nil in Hin. }
  destruct (decide (l = x)) as [->|Hne].
  { exists [], []. simpl. rewrite !decide_True by done.
    by rewrite !app_nil_r. }
  simpl in Hnd, Hin.
  apply NoDup_cons in Hnd as (_ & Hnd).
  apply NoDup_app in Hnd as (Hndl & Hdisj & Hndr).
  apply elem_of_cons in Hin as [->|Hin]; [done|].
  apply elem_of_app in Hin as [Hin|Hin].
  - destruct (IHl Hndl Hin) as (l1 & l2 & E1 & E2).
    exists l1, (l2 ++ d :: elements tr).
    rewrite subtree_at_Node_l by done. simpl.
    rewrite decide_False by done. simpl.
    rewrite (replace_at_notin x s tr) by (by apply Hdisj).
    rewrite E2. rewrite E1 at 1. by rewrite <- !(assoc_L (++)).
  - assert (Hnin : x ∉ locs tl) by (intros Hin'; by apply (Hdisj x)).
    destruct (IHr Hndr Hin) as (l1 & l2 & E1 & E2).
    exists (elements tl ++ d :: l1), l2.
    rewrite subtree_at_Node_r by done. simpl.
    rewrite decide_False by done. simpl.
    rewrite (replace_at_notin x s tl) by done.
    rewrite E2. rewrite E1 at 1. by rewrite <- !(assoc_L (++)).
Qed.

Lemma locs_replace_at x (s t : tree) :
  NoDup (locs t) → x ∈ locs t →
  ∃ l1 l2,
    locs t = l1 ++ locs (subtree_at x t) ++ l2
    ∧ locs (replace_at x s t) = l1 ++ locs s ++ l2.
Proof.
  induction t as [|l tl IHl d tr IHr]; intros Hnd Hin.
  { by apply elem_of_nil in Hin. }
  destruct (decide (l = x)) as [->|Hne].
  { exists [], []. simpl. rewrite !decide_True by done.
    by rewrite !app_nil_r. }
  simpl in Hnd, Hin.
  apply NoDup_cons in Hnd as (_ & Hnd).
  apply NoDup_app in Hnd as (Hndl & Hdisj & Hndr).
  apply elem_of_cons in Hin as [->|Hin]; [done|].
  apply elem_of_app in Hin as [Hin|Hin].
  - destruct (IHl Hndl Hin) as (l1 & l2 & E1 & E2).
    exists (l :: l1), (l2 ++ locs tr).
    rewrite subtree_at_Node_l by done. simpl.
    rewrite decide_False by done. simpl.
    rewrite (replace_at_notin x s tr) by (by apply Hdisj).
    rewrite E2. rewrite E1 at 1. by rewrite <- !(assoc_L (++)).
  - assert (Hnin : x ∉ locs tl) by (intros Hin'; by apply (Hdisj x)).
    destruct (IHr Hndr Hin) as (l1 & l2 & E1 & E2).
    exists (l :: locs tl ++ l1), l2.
    rewrite subtree_at_Node_r by done. simpl.
    rewrite decide_False by done. simpl.
    rewrite (replace_at_notin x s tl) by done.
    rewrite E2. rewrite E1 at 1. by rewrite <- !(assoc_L (++)).
Qed.

Lemma NoDup_replace_at x (s t : tree) :
  NoDup (locs t) → NoDup (locs s) →
  (∀ l, l ∈ locs s → l ∈ locs (subtree_at x t)) →
  NoDup (locs (replace_at x s t)).
Proof.
  intros Hnd Hnds Hsub.
  destruct (decide (x ∈ locs t)) as [Hin|Hnin];
    [|by rewrite replace_at_notin].
  destruct (locs_replace_at x s t Hnd Hin) as (l1 & l2 & E1 & E2).
  rewrite E2. rewrite E1 in Hnd.
  apply NoDup_app in Hnd as (H1 & H12 & Hnd).
  apply NoDup_app in Hnd as (H2 & H23 & H3).
  apply NoDup_app. split; [done|]. split.
  - intros l Hl. specialize (H12 l Hl). rewrite not_elem_of_app in H12.
    rewrite not_elem_of_app. destruct H12 as (Ha & Hb). split; [|done].
    intros Hls. by apply Ha, Hsub.
  - apply NoDup_app. split; [done|]. split; [|done].
    intros l Hl. by apply H23, Hsub.
Qed.

Lemma bst_subtree_at x (t : tree) : bst lt t → bst lt (subtree_at x t).
Proof.
  induction t as [|l tl IHl d tr IHr]; [done|]. simpl.
  destruct (decide (l = x)) as [->|Hne]; [done|].
  intros (_ & _ & Hl & Hr).
  destruct (subtree_at x tl) as [|l2 tl2 d2 tr2]; auto.
Qed.

Lemma bst_replace_at x (s t : tree) :
  NoDup (locs t) → bst lt t → bst lt s →
  (∀ e, e ∈ elements s → e ∈ elements (subtree_at x t)) →
  bst lt (replace_at x s t).
Proof using Type.
  clear show.
  induction t as [|l tl IHl d tr IHr]; intros Hnd Hb Hbs Hsub; [done|].
  simpl. destruct (decide (l = x)) as [->|Hne]; [done|].
  simpl in Hnd, Hb.
  apply NoDup_cons in Hnd as (_ & Hnd).
  apply NoDup_app in Hnd as (Hndl & Hdisj & Hndr).
  destruct Hb as (Hlt & Hgt & Hbl & Hbr).
  assert (Hkeep : ∀ t0 : tree, NoDup (locs t0) →
            (x ∈ locs t0 →
             ∀ e, e ∈ elements s → e ∈ elements (subtree_at x t0)) →
            ∀ e, e ∈ elements (replace_at x s t0) → e ∈ elements t0).
  { intros t0 Hnd0 Hsub0 e.
    destruct (decide (x ∈ locs t0)) as [Hin|Hnin];
      [|by rewrite replace_at_notin].
    destruct (elements_replace_at x s t0 Hnd0 Hin) as (l1 & l2 & E1 & E2).
    rewrite E2, E1, !elem_of_app. specialize (Hsub0 Hin e). tauto. }
  assert (Hsubl : x ∈ locs tl →
            ∀ e, e ∈ elements s → e ∈ elements (subtree_at x tl)).
  { intros Hin e He. rewrite <- (subtree_at_Node_l x l tl d tr) by done.
    by apply Hsub. }
  assert (Hsubr : x ∈ locs tr →
            ∀ e, e ∈ elements s → e ∈ elements (subtree_at x tr)).
  { intros Hin e He.
    assert (Hnin : x ∉ locs tl) by (intros Hin'; by apply (Hdisj x)).
    rewrite <- (subtree_at_Node_r x l tl d tr) by done. by apply Hsub. }
  simpl. split; [|split; [|split]].
  - rewrite Forall_forall in Hlt |- *. intros e He.
    by apply Hlt, (Hkeep tl).
  - rewrite Forall_forall in Hgt |- *. intros e He.
    by apply Hgt, (Hkeep tr).
  - destruct (decide (x ∈ locs tl)) as [Hin|Hnin];
      [by apply IHl; auto|by rewrite replace_at_notin].
  - destruct (decide (x ∈ locs tr)) as [Hin|Hnin];
      [by apply IHr; auto|by rewrite replace_at_notin].
Qed.

Lemma bst_del_leftmost (t : tree) : bst lt t → bst lt (del_leftmost t).
Proof.
  induction t as [|l tl IHl d tr _]; [done|].
  intros (Hlt & Hgt & Hbl & Hbr).
  destruct (leaf_dec tl) as [->|Hne]; [done|].
  destruct (leftmost tl) as [[[xs ds] rs]|] eqn:Hm;
    [|by apply leftmost_None in Hm].
  assert (del_leftmost (Node l tl d tr) = Node l (del_leftmost tl) d tr)
    as -> by (by destruct tl).
  simpl. split; [|by auto].
  rewrite (leftmost_elements _ _ _ _ Hm) in Hlt.
  by apply Forall_cons in Hlt as (_ & Hlt).
Qed.

(** ** remove, two children *)

Lemma remove_two_subtree fuel item parent0 (w : world)
    x (tl : tree) d b trl db trr xs ds rs :
  let tr := Node b trl db trr in
  shape (heap w) (Node x tl d tr) → NoDup (locs (Node x tl d tr)) →
  tl ≠ Leaf → height tr ≤ fuel →
  leftmost tr = Some (xs, ds, rs) →
  ∃ ps pn,
    heap w !! ps = Some pn
    ∧ ps ∈ locs (Node x tl d tr)
    ∧ (if decide (xs = b) then ps = x
       else left pn = Some xs ∧ left_spine (heap w) b ps)
    ∧ remove fuel item true (Some x) parent0 w
      = Ok tt (mkWorld
                 (spliced x (mkBinNode d (root_of tl) (Some b)) xs
                    (mkBinNode ds None (root_of rs)) ps pn (heap w))
                 (myRoot w))
    ∧ shape (spliced x (mkBinNode d (root_of tl) (Some b)) xs
               (mkBinNode ds None (root_of rs)) ps pn (heap w))
            (Node x tl ds (del_leftmost tr)).
Proof.
  intros tr Hs Hnd Htl Hf Hm.
  pose proof Hs as (Hx & Hsl & Hsr).
  pose proof Hnd as Hnd0.
  apply NoDup_cons in Hnd0 as (Hxl & Hnd0).
  apply NoDup_app in Hnd0 as (Hndl & Hdisj & Hndr).
  rewrite not_elem_of_app in Hxl. destruct Hxl as (Hxtl & Hxtr).
  destruct (leftmost_node _ _ _ _ _ _ _ _ Hsr Hm) as (Hxs & Hspine).
  pose proof (leftmost_in _ _ _ _ Hm) as Hxs_in.
  assert (Hxs_x : xs ≠ x) by (by intros ->).
  assert (Hxs_tl : xs ∉ locs tl) by (intros Hin; by apply (Hdisj xs)).
  destruct tl as [|a tll da tlr]; [done|]. clear Htl.
  assert (Hab : a ≠ b).
  { intros ->. apply (Hdisj b); left. }
  (* the part of the run that both cases share *)
  assert (Hrun : ∀ ps pn,
    leftmost_parent tr (Some x) = Some ps →
    <[x := mkBinNode ds (Some a) (Some b)]> (heap w) !! ps
      = Some (if decide (ps = x)
              then mkBinNode ds (Some a) (Some b) else pn) →
    (if decide (ps = x) then True else left pn = Some xs) →
    remove fuel item true (Some x) parent0 w
    = Ok tt (mkWorld
               (spliced x (mkBinNode d (Some a) (Some b)) xs
                  (mkBinNode ds None (root_of rs)) ps pn (heap w))
               (myRoot w))).
  { intros ps pn Hps Hpn Hleft.
    pose proof (succ_loop_leftmost fuel tr (Some x) w xs ds rs Hsr Hf Hm)
      as Hloop.
    change (root_of tr) with (Some b) in Hloop.
    unfold remove, search2, mbind, M_bind, bind, ret. simpl.
    rewrite Hx. simpl.
    rewrite Hloop, Hps.
    unfold load at 1. rewrite Hxs.
    rewrite (set_data_Some _ _ _ _ Hx). simpl.
    rewrite lookup_insert_ne, Hxs by done. simpl.
    rewrite Hpn. unfold spliced. simpl.
    destruct (decide (ps = x)) as [->|Hpx].
    - simpl. unfold ptr_eqb. rewrite bool_decide_eq_false_2
        by (intros [= ->]; apply (Hdisj xs); [left|done]).
      erewrite set_right_Some by (simpl; apply lookup_insert_eq). simpl.
      by rewrite !lookup_insert_ne, Hxs by done.
    - rewrite Hleft. unfold ptr_eqb. rewrite bool_decide_eq_true_2 by done.
      erewrite set_left_Some by (simpl; exact Hpn). simpl.
      assert (ps ≠ xs).
      { intros ->. rewrite lookup_insert_ne, Hxs in Hpn by done.
        injection Hpn as <-. done. }
      by rewrite !lookup_insert_ne, Hxs by done. }
  destruct (leaf_dec trl) as [->|Htrl].
  - (* the right child is the successor: its parent is [x] *)
    simpl in Hm. injection Hm as <- <- <-.
    exists x, (mkBinNode d (Some a) (Some b)).
    split; [done|]. split; [left|].
    rewrite decide_True by done. split; [done|].
    split.
    { apply Hrun; [done| |].
      - rewrite lookup_insert_eq. by rewrite decide_True.
      - by rewrite decide_True. }
    unfold spliced. rewrite decide_True by done. simpl.
    rewrite lookup_delete_ne, lookup_insert_eq by done.
    destruct Hsr as (_ & _ & Hsrr).
    apply NoDup_cons in Hndr as (Hb & Hndrr). simpl in Hb.
    assert (x ∉ locs trr).
    { intros Hin. apply Hxtr. right. done. }
    split; [done|].
    split; [|by repeat (apply shape_delete_fresh || apply shape_insert_fresh)].
    destruct Hsl as (Ha & Hsll & Hslr).
    assert (Hatl : ∀ y, y ∈ locs tll ∨ y ∈ locs tlr → y ≠ b ∧ y ≠ x).
    { intros y Hy. split; intros ->.
      - apply (Hdisj b); [|left]. right. by apply elem_of_app.
      - apply Hxtl. right. by apply elem_of_app. }
    assert (Hxa : x ≠ a) by (intros ->; apply Hxtl; left).
    rewrite lookup_delete_ne, !lookup_insert_ne by done.
    split; [done|].
    split; repeat (apply shape_delete_fresh || apply shape_insert_fresh);
      try done; intros Hin; by edestruct Hatl as [? ?]; eauto.
  - (* the successor lies deeper: its parent is a node of the right subtree *)
    destruct (leftmost_parent_node (heap w) b trl db trr (Some x) xs ds rs
                Htrl Hsr Hm) as (ps & dp & rp & Hps & Hps_in & Hpn & Hsp).
    assert (Hps_x : ps ≠ x) by (by intros ->).
    assert (Hxs_b : xs ≠ b).
    { unfold tr in Hm. rewrite leftmost_Node in Hm by done.
      apply leftmost_in in Hm. intros ->.
      apply NoDup_cons in Hndr as (Hb & _). apply Hb.
      apply elem_of_app. by left. }
    exists ps, (mkBinNode dp (Some xs) (root_of rp)).
    split; [done|]. split; [by right; apply elem_of_app; right|].
    rewrite decide_False by done. split; [done|].
    split.
    { apply Hrun; [done| |].
      - rewrite lookup_insert_ne by done. by rewrite decide_False.
      - by rewrite decide_False. }
    unfold spliced. rewrite decide_False by done. simpl data. simpl right.
    assert (Hs1 : shape (<[x := mkBinNode ds (Some a) (Some b)]> (heap w)) tr).
    { by apply shape_insert_fresh. }
    assert (Hpn1 : <[x := mkBinNode ds (Some a) (Some b)]> (heap w) !! ps
                   = Some (mkBinNode dp (Some xs) (root_of rp))).
    { by rewrite lookup_insert_ne. }
    pose proof (shape_del_leftmost _ b trl db trr (Some x) xs ds rs ps _
                  Htrl Hs1 Hndr Hm Hps Hpn1) as Hdel.
    simpl in Hdel.
    assert (Hps_tl : ps ∉ locs (Node a tll da tlr)).
    { intros Hin. by apply (Hdisj ps). }
    change (shape ?h (Node x ?l ds ?r))
      with (h !! x = Some (mkBinNode ds (root_of l) (root_of r))
            ∧ shape h l ∧ shape h r).
    split; [|split; [|exact Hdel]].
    + rewrite lookup_delete_ne, lookup_insert_ne, lookup_insert_eq by done.
      by destruct trl.
    + apply shape_delete_fresh; [done|].
      apply shape_insert_fresh; [done|].
      by apply shape_insert_fresh.
Qed.

Lemma spliced_frame x (xn : BinNode) xs sn ps pn (h : gmap loc BinNode) l :
  l ≠ x → l ≠ xs → l ≠ ps → spliced x xn xs sn ps pn h !! l = h !! l.
Proof.
  intros ? ? ?. unfold spliced.
  by rewrite lookup_delete_ne, !lookup_insert_ne by done.
Qed.

(** The tree side of the two-children case: the old value of the node
    leaves the inorder sequence, nothing else moves, and the order invariant
    is kept. *)
Lemma remove_two_pure x (t tl : tree) d tr :
  NoDup (locs t) → x ∈ locs t →
  subtree_at x t = Node x tl d tr → tr ≠ Leaf →
  (∃ l1 l2, elements t = l1 ++ d :: l2
            ∧ elements (remove_two x t) = l1 ++ l2)
  ∧ (bst lt t → bst lt (remove_two x t)).
Proof using lt_order.
  clear show.
  intros Hnd Hin Hsub Htr.
  destruct (leftmost tr) as [[[xs ds] rs]|] eqn:Hm;
    [|by apply leftmost_None in Hm].
  pose proof (leftmost_elements _ _ _ _ Hm) as Helts.
  set (s' := Node x tl ds (del_leftmost tr)).
  assert (Hrm : remove_two x t = replace_at x s' t).
  { unfold remove_two. by rewrite Hsub, Hm. }
  rewrite Hrm. split.
  - destruct (elements_replace_at x s' t Hnd Hin) as (l1 & l2 & E1 & E2).
    rewrite Hsub in E1.
    exists (l1 ++ elements tl), (ds :: elements (del_leftmost tr) ++ l2).
    split.
    + rewrite E1.
      change (elements (Node x tl d tr))
        with (elements tl ++ d :: elements tr).
      rewrite Helts. by rewrite <- !(assoc_L (++)).
    + rewrite E2.
      change (elements s')
        with (elements tl ++ ds :: elements (del_leftmost tr)).
      by rewrite <- !(assoc_L (++)).
  - intros Hb. pose proof (bst_subtree_at x t Hb) as Hbs.
    rewrite Hsub in Hbs. destruct Hbs as (Hlt & Hgt & Hbl & Hbr).
    apply bst_replace_at; [done..| |].
    + pose proof (bst_ascending _ Hbr) as Hasc. unfold ascending in Hasc.
      rewrite Helts in Hasc, Hgt.
      apply StronglySorted_cons in Hasc as (Hmin & _).
      apply Forall_cons in Hgt as (Hd & _).
      change (bst lt s')
        with (Forall (fun e => lt e ds = true) (elements tl)
              ∧ Forall (fun e => lt ds e = true) (elements (del_leftmost tr))
              ∧ bst lt tl ∧ bst lt (del_leftmost tr)).
      split; [|split; [done|split; [done|by apply bst_del_leftmost]]].
      rewrite Forall_forall in Hlt |- *. intros e He.
      apply (st_trans _ lt_order _ d); auto.
    + intros e. rewrite Hsub.
      change (elements (Node x tl d tr))
        with (elements tl ++ d :: elements tr).
      change (elements s')
        with (elements tl ++ ds :: elements (del_leftmost tr)).
      rewrite Helts.
      repeat (rewrite elem_of_app || rewrite elem_of_cons). tauto.
Qed.

(** The heap side of the two-children case, for a node anywhere in the
    tree. *)
Lemma remove_two_run fuel item parent0 (w : world) (t : tree) x xn b :
  is_tree w t → x ∈ locs t → height t ≤ fuel →
  heap w !! x = Some xn → left xn ≠ None → right xn = Some b →
  ∃ xs sn ps pn w',
    left_spine (heap w) b xs
    ∧ heap w !! xs = Some sn ∧ left sn = None
    ∧ heap w !! ps = Some pn
    ∧ (if decide (xs = b) then ps = x
       else left pn = Some xs ∧ left_spine (heap w) b ps)
    ∧ remove fuel item true (Some x) parent0 w = Ok tt w'
    ∧ myRoot w' = myRoot w
    ∧ heap w' = spliced x xn xs sn ps pn (heap w)
    ∧ is_tree w' (remove_two x t).
Proof using Type.
  clear show.
  intros (Hroot & Hs & Hnd) Hin Hf Hx Hleft Hright.
  destruct (subtree_at_in x t Hin) as (tl & d & tr & Hsub).
  pose proof (subtree_at_shape (heap w) x t Hs) as Hss.
  pose proof (subtree_at_NoDup x t Hnd) as Hnds.
  pose proof (subtree_at_height x t) as Hh.
  rewrite Hsub in Hss, Hnds, Hh.
  pose proof Hss as (Hx' & Hsl & Hsr).
  rewrite Hx in Hx'. injection Hx' as ->. simpl in Hleft, Hright.
  assert (Htl : tl ≠ Leaf) by (by intros ->).
  destruct tr as [|b' trl db trr]; [done|].
  injection Hright as ->.
  destruct (leftmost (Node b trl db trr)) as [[[xs ds] rs]|] eqn:Hm;
    [|by apply leftmost_None in Hm].
  assert (Hf' : height (Node b trl db trr) ≤ fuel).
  { simpl in Hh |- *. lia. }
  destruct (remove_two_subtree fuel item parent0 w x tl d b trl db trr
              xs ds rs Hss Hnds Htl Hf' Hm)
    as (ps & pn & Hps & Hps_in & Hpar & Hrun & Hshape).
  destruct (leftmost_node _ _ _ _ _ _ _ _ Hsr Hm) as (Hxs & Hspine).
  pose proof (leftmost_locs _ _ _ _ Hm) as Hperm.
  set (tr := Node b trl db trr) in *.
  set (s' := Node x tl ds (del_leftmost tr)) in *.
  assert (Hlocs : locs (Node x tl d tr) ≡ₚ xs :: locs s').
  { change (locs (Node x tl d tr)) with (x :: locs tl ++ locs tr).
    change (locs s') with (x :: locs tl ++ locs (del_leftmost tr)).
    rewrite Hperm. rewrite <- Permutation_middle. apply perm_swap. }
  assert (Hrm : remove_two x t = replace_at x s' t).
  { unfold remove_two. by rewrite Hsub, Hm. }
  exists xs, (mkBinNode ds None (root_of rs)), ps, pn,
    (mkWorld (spliced x (mkBinNode d (root_of tl) (Some b)) xs
                (mkBinNode ds None (root_of rs)) ps pn (heap w))
             (myRoot w)).
  split; [done|]. split; [done|]. split; [done|]. split; [done|].
  split; [done|]. split; [done|]. split; [done|]. split; [done|].
  rewrite Hrm. split; [|split].
  - simpl. by rewrite root_of_replace_at.
  - simpl. apply (shape_replace_at (heap w)); [done..| |done|done].
    intros l Hl Hnl. rewrite Hsub in Hnl.
    apply spliced_frame; intros ->; apply Hnl; [left| |done].
    right. apply elem_of_app. right. by apply (leftmost_in _ _ _ _ Hm).
  - apply NoDup_replace_at; [done| |].
    + rewrite Hlocs in Hnds. by apply NoDup_cons in Hnds as (_ & ?).
    + intros l Hl. rewrite Hsub, Hlocs. by right.
Qed.

(** The two-children branch of [remove] (the body after the lookup).  When
    [found] reads true and [x] points to a node of the tree that has two
    children (whatever [item] is and whatever [parent] held), the call
    returns, and: the successor [xs] is reached from the right child [b] of
    [x] by left links only and has no left child; its tracked parent [ps]
    is [x] itself when [xs] is the right child, and otherwise the node of
    the left spine whose left link is [xs]; the value of [xs] is copied into
    [x], the link of [ps] that led to [xs] takes the right subtree of [xs],
    and [xs] is freed.  What is left is the tree with the old value of [x]
    taken out of the inorder sequence, and it keeps the order invariant. *)
Theorem remove_two_children fuel item parent0 (w : world) (t : tree)
    x xn b :
  is_tree w t → x ∈ locs t → height t ≤ fuel →
  heap w !! x = Some xn → left xn ≠ None → right xn = Some b →
  ∃ xs sn ps pn w',
    left_spine (heap w) b xs
    ∧ heap w !! xs = Some sn ∧ left sn = None
    ∧ heap w !! ps = Some pn
    ∧ (if decide (xs = b) then ps = x
       else left pn = Some xs ∧ left_spine (heap w) b ps)
    ∧ remove fuel item true (Some x) parent0 w = Ok tt w'
    ∧ myRoot w' = myRoot w
    ∧ heap w' = spliced x xn xs sn ps pn (heap w)
    ∧ is_tree w' (remove_two x t)
    ∧ (∃ l1 l2, elements t = l1 ++ data xn :: l2
                ∧ elements (remove_two x t) = l1 ++ l2)
    ∧ (bst lt t → bst lt (remove_two x t)).
Proof using lt_order.
  clear show.
  intros Ht Hin Hf Hx Hleft Hright.
  destruct (remove_two_run fuel item parent0 w t x xn b
              Ht Hin Hf Hx Hleft Hright)
    as (xs & sn & ps & pn & w' & Hspine & Hxs & Hsn & Hps & Hpar & Hrun
        & Hroot' & Hheap & Ht').
  destruct Ht as (Hroot & Hs & Hnd).
  destruct (subtree_at_in x t Hin) as (tl & d & tr & Hsub).
  pose proof (subtree_at_shape (heap w) x t Hs) as Hss.
  rewrite Hsub in Hss. destruct Hss as (Hx' & _ & _).
  rewrite Hx in Hx'. injection Hx' as ->. simpl in Hright.
  assert (Htr : tr ≠ Leaf) by (by intros ->).
  destruct (remove_two_pure x t tl d tr Hnd Hin Hsub Htr) as (Helts & Hbst).
  exists xs, sn, ps, pn, w'. split_and!; done.
Qed.

(** ** remove, at most one child *)

Lemma not_null_None : not_null None = false.
Proof. reflexivity. Qed.

Lemma cond_two_children (xn : BinNode) :
  left xn = None ∨ right xn = None →
  not_null (left xn) && not_null (right xn) = false.
Proof.
  intros [->| ->]; rewrite not_null_None; [done|apply andb_false_r].
Qed.

(** The run of [remove] on a node with at most one child. *)
Lemma remove_one_run fuel item (w : world) x xn :
  heap w !! x = Some xn → left xn = None ∨ right xn = None →
  let sub := if ptr_eqb (left xn) None then right xn else left xn in
  remove fuel item true (Some x) None w
  = Ok tt (mkWorld (delete x (heap w)) sub)
  ∧ ∀ p pn, heap w !! p = Some pn →
      remove fuel item true (Some x) (Some p) w
      = Ok tt (mkWorld (unlinked x sub p pn (heap w)) (myRoot w)).
Proof.
  intros Hx Hone sub.
  pose proof (cond_two_children xn Hone) as Hcond.
  split.
  - unfold remove, search2, mbind, M_bind, bind, ret. simpl.
    rewrite Hx. simpl. rewrite Hcond. simpl. rewrite Hx. simpl.
    by rewrite Hx.
  - intros p pn Hp.
    unfold remove, search2, mbind, M_bind, bind, ret. simpl.
    rewrite Hx. simpl. rewrite Hcond. simpl. rewrite Hx. simpl.
    rewrite Hp. fold sub. unfold unlinked.
    destruct (ptr_eqb (left pn) (Some x)).
    + erewrite set_left_Some by exact Hp. simpl.
      destruct (decide (p = x)) as [->|Hne].
      * by rewrite lookup_insert_eq.
      * by rewrite lookup_insert_ne, Hx.
    + erewrite set_right_Some by exact Hp. simpl.
      destruct (decide (p = x)) as [->|Hne].
      * by rewrite lookup_insert_eq.
      * by rewrite lookup_insert_ne, Hx.
Qed.

Lemma root_of_in (t : tree) x : root_of t = Some x → x ∈ locs t.
Proof. destruct t as [|l tl d tr]; [done|]. intros [= ->]. left. Qed.

Lemma replace_at_root x (s t : tree) :
  root_of t = Some x → replace_at x s t = s.
Proof.
  destruct t as [|l tl d tr]; [done|]. intros [= ->]. simpl.
  by rewrite decide_True.
Qed.

Lemma root_of_replace_at_ne x (s t : tree) :
  root_of t ≠ Some x → root_of (replace_at x s t) = root_of t.
Proof.
  destruct t as [|l tl d tr]; [done|]. simpl. intros Hne.
  rewrite decide_False; [done|]. by intros ->.
Qed.

Lemma subtree_at_root x (t : tree) :
  root_of t = Some x → subtree_at x t = t.
Proof.
  destruct t as [|l tl d tr]; [done|]. intros [= ->]. simpl.
  by rewrite decide_True.
Qed.

Lemma parent_of_notin x (t : tree) : x ∉ locs t → parent_of x t = None.
Proof.
  induction t as [|l tl IHl d tr IHr]; [done|]. simpl.
  rewrite not_elem_of_cons, not_elem_of_app. intros (Hne & Hl & Hr).
  rewrite decide_False by (intros H; by apply root_of_in in H).
  rewrite decide_False by (intros H; by apply root_of_in in H).
  by rewrite IHl, IHr.
Qed.

(** Taking a node with at most one child out below its parent: [s] is what
    hangs below the node (its only child, or nothing). *)
Lemma shape_unlink (h : gmap loc BinNode) x (s t : tree) :
  NoDup (locs t) → shape h t → x ∈ locs t → root_of t ≠ Some x →
  shape h s → (∀ l, l ∈ locs s → l ∈ locs (subtree_at x t) ∧ l ≠ x) →
  ∃ p pn,
    parent_of x t = Some p ∧ p ∈ locs t
    ∧ (p ∉ locs (subtree_at x t)) ∧ h !! p = Some pn
    ∧ shape (unlinked x (root_of s) p pn h) (replace_at x s t).
Proof.
  induction t as [|l tl IHl d tr IHr];
    intros Hnd Hs Hin Hroot Hss Hsub; [by apply elem_of_nil in Hin|].
  assert (Hlx : l ≠ x) by (intros ->; by apply Hroot).
  simpl in Hnd, Hin.
  apply NoDup_cons in Hnd as (Hl & Hnd).
  apply NoDup_app in Hnd as (Hndl & Hdisj & Hndr).
  rewrite not_elem_of_app in Hl. destruct Hl as (Hll & Hlr).
  apply elem_of_cons in Hin as [->|Hin]; [done|].
  destruct Hs as (Hh & Hsl & Hsr).
  assert (Hfr : ∀ (t0 : tree) pn0 p0,
            x ∉ locs t0 → p0 ∉ locs t0 → shape h t0 →
            shape (unlinked x (root_of s) p0 pn0 h) t0).
  { intros t0 pn0 p0 ? ? ?. unfold unlinked.
    apply shape_delete_fresh; [done|]. by apply shape_insert_fresh. }
  apply elem_of_app in Hin as [Hin|Hin].
  - assert (Hxr : x ∉ locs tr) by (by apply Hdisj).
    rewrite subtree_at_Node_l in Hsub |- * by done.
    simpl parent_of. simpl replace_at.
    rewrite (decide_False (P := l = x)) by done.
    rewrite (replace_at_notin x s tr) by done.
    destruct (decide (root_of tl = Some x)) as [Hrt|Hrt].
    + exists l, (mkBinNode d (root_of tl) (root_of tr)).
      rewrite (subtree_at_root _ _ Hrt) in Hsub |- *.
      rewrite (replace_at_root _ _ _ Hrt).
      split; [done|]. split; [left|]. split; [done|]. split; [done|].
      assert (Hls : l ∉ locs s) by (intros H; by apply Hsub in H as (? & _)).
      assert (Hxs : x ∉ locs s) by (intros H; by apply Hsub in H as (_ & ?)).
      split; [|split; [by apply Hfr|by apply Hfr]].
      unfold unlinked. rewrite lookup_delete_ne, lookup_insert_eq by done.
      simpl. unfold ptr_eqb. by rewrite bool_decide_eq_true_2.
    + destruct (IHl Hndl Hsl Hin Hrt Hss Hsub)
        as (p & pn & Hp & Hp_in & Hp_sub & Hhp & Hshape).
      exists p, pn. rewrite Hp.
      rewrite decide_False
        by (intros H; apply root_of_in in H; by apply Hxr).
      split; [done|]. split; [right; apply elem_of_app; by left|].
      split; [done|]. split; [done|].
      assert (l ≠ p) by (by intros ->).
      simpl. rewrite root_of_replace_at_ne by done.
      split; [|split; [done|]].
      * unfold unlinked. by rewrite lookup_delete_ne, lookup_insert_ne.
      * apply Hfr; [done| |done]. by apply Hdisj.
  - assert (Hxl : x ∉ locs tl) by (intros H; by apply (Hdisj x)).
    rewrite subtree_at_Node_r in Hsub |- * by done.
    simpl parent_of. simpl replace_at.
    rewrite (decide_False (P := l = x)) by done.
    rewrite (replace_at_notin x s tl) by done.
    rewrite decide_False
      by (intros H; apply root_of_in in H; by apply Hxl).
    destruct (decide (root_of tr = Some x)) as [Hrt|Hrt].
    + exists l, (mkBinNode d (root_of tl) (root_of tr)).
      rewrite (subtree_at_root _ _ Hrt) in Hsub |- *.
      rewrite (replace_at_root _ _ _ Hrt).
      split; [done|]. split; [left|]. split; [done|]. split; [done|].
      assert (Hls : l ∉ locs s) by (intros H; by apply Hsub in H as (? & _)).
      assert (Hxs : x ∉ locs s) by (intros H; by apply Hsub in H as (_ & ?)).
      split; [|split; [by apply Hfr|by apply Hfr]].
      unfold unlinked. rewrite lookup_delete_ne, lookup_insert_eq by done.
      simpl. unfold ptr_eqb. rewrite bool_decide_eq_false_2; [done|].
      intros H. apply root_of_in in H. by apply Hxl.
    + rewrite (parent_of_notin x tl Hxl).
      destruct (IHr Hndr Hsr Hin Hrt Hss Hsub)
        as (p & pn & Hp & Hp_in & Hp_sub & Hhp & Hshape).
      exists p, pn.
      split; [done|]. split; [right; apply elem_of_app; by right|].
      split; [done|]. split; [done|].
      assert (l ≠ p) by (by intros ->).
      simpl. rewrite root_of_replace_at_ne by done.
      split; [|split; [|done]].
      * unfold unlinked. by rewrite lookup_delete_ne, lookup_insert_ne.
      * apply Hfr; [done| |done]. intros H'. by apply (Hdisj p).
Qed.

Lemma parent_of_in x (t : tree) :
  x ∈ locs t → root_of t ≠ Some x → ∃ p, parent_of x t = Some p.
Proof.
  induction t as [|l tl IHl d tr IHr]; intros Hin Hroot;
    [by apply elem_of_nil in Hin|].
  simpl in Hin. simpl.
  apply elem_of_cons in Hin as [->|Hin]; [done|].
  destruct (decide (root_of tl = Some x)) as [|Hrl]; [by eauto|].
  destruct (decide (root_of tr = Some x)) as [|Hrr]; [by eauto|].
  apply elem_of_app in Hin as [Hin|Hin].
  - destruct (IHl Hin Hrl) as (p & ->). eauto.
  - destruct (parent_of x tl) as [p|]; [by eauto|]. by apply IHr.
Qed.

(** [remove] on a node with at most one child, given the node and its
    parent. *)
Lemma remove_one_located fuel item (w : world) (t : tree) x tl d tr :
  is_tree w t → x ∈ locs t →
  subtree_at x t = Node x tl d tr → tl = Leaf ∨ tr = Leaf →
  ∃ w',
    remove fuel item true (Some x)
      (if decide (root_of t = Some x) then None else parent_of x t) w
    = Ok tt w'
    ∧ is_tree w' (replace_at x (only_child tl tr) t).
Proof.
  intros (Hroot & Hs & Hnd) Hin Hsub Hone.
  pose proof (subtree_at_shape (heap w) x t Hs) as Hss.
  pose proof (subtree_at_NoDup x t Hnd) as Hnds.
  rewrite Hsub in Hss, Hnds. destruct Hss as (Hx & Hsl & Hsr).
  set (s := only_child tl tr).
  assert (Hs_shape : shape (heap w) s) by (unfold s; by destruct tl).
  assert (Hs_locs : ∀ l, l ∈ locs s → l ∈ locs (subtree_at x t) ∧ l ≠ x).
  { intros l Hl. rewrite Hsub. simpl in Hnds |- *.
    apply NoDup_cons in Hnds as (Hxn & _).
    assert (l ∈ locs tl ++ locs tr) as Hl'.
    { apply elem_of_app. unfold s, only_child in Hl.
      destruct tl; [by right|by left]. }
    split; [by right|]. by intros ->. }
  assert (Hs_nd : NoDup (locs s)).
  { simpl in Hnds. apply NoDup_cons in Hnds as (_ & Hnds).
    apply NoDup_app in Hnds as (? & _ & ?). unfold s. by destruct tl. }
  assert (Hsubp : (if ptr_eqb (root_of tl) None
                   then root_of tr else root_of tl) = root_of s).
  { unfold s. destruct Hone as [->| ->]; [done|]. by destruct tl. }
  assert (Hone' : left (mkBinNode d (root_of tl) (root_of tr)) = None
                  ∨ right (mkBinNode d (root_of tl) (root_of tr)) = None).
  { destruct Hone as [->| ->]; [by left|by right]. }
  destruct (remove_one_run fuel item w x _ Hx Hone') as (Hrun0 & Hrunp).
  simpl in Hrun0, Hrunp. rewrite Hsubp in Hrun0, Hrunp.
  assert (Hnd' : NoDup (locs (replace_at x s t))).
  { apply NoDup_replace_at; [done..|]. intros l Hl. by apply Hs_locs. }
  destruct (decide (root_of t = Some x)) as [Hrt|Hrt].
  - eexists. split; [exact Hrun0|].
    rewrite (replace_at_root _ _ _ Hrt) in Hnd' |- *.
    split; [done|]. split; [|done]. simpl.
    apply shape_delete_fresh; [|done].
    intros Hl. by apply Hs_locs in Hl as (_ & ?).
  - destruct (shape_unlink (heap w) x s t Hnd Hs Hin Hrt Hs_shape Hs_locs)
      as (p & pn & Hp & _ & _ & Hhp & Hshape).
    rewrite Hp. eexists. split; [exact (Hrunp p pn Hhp)|].
    split; [|split; [done|done]]. simpl.
    by rewrite root_of_replace_at_ne.
Qed.

Lemma locate_found item (t : tree) parent :
  bst lt t → NoDup (locs t) → item ∈ elements t →
  ∃ x tl tr,
    locate lt item t parent
    = (true, Some x,
       if decide (root_of t = Some x) then parent else parent_of x t)
    ∧ x ∈ locs t
    ∧ subtree_at x t = Node x tl item tr.
Proof using lt_order.
  clear show.
  revert parent.
  induction t as [|l tl IHl d tr IHr]; intros parent Hb Hnd Hin.
  { by apply elem_of_nil in Hin. }
  simpl in Hb, Hnd, Hin.
  destruct Hb as (Hlt & Hgt & Hbl & Hbr).
  rewrite Forall_forall in Hlt, Hgt.
  apply NoDup_cons in Hnd as (Hl & Hnd).
  apply NoDup_app in Hnd as (Hndl & Hdisj & Hndr).
  rewrite not_elem_of_app in Hl. destruct Hl as (Hll & Hlr).
  apply elem_of_app in Hin as [Hin|Hin];
    [|apply elem_of_cons in Hin as [->|Hin]].
  - destruct (IHl (Some l) Hbl Hndl Hin) as (x & a & b & Hloc & Hx & Hsub).
    assert (Hlx : l ≠ x) by (by intros ->).
    assert (Hxr : x ∉ locs tr) by (by apply Hdisj).
    exists x, a, b. simpl locate. rewrite (Hlt _ Hin), Hloc.
    split; [|split; [right; apply elem_of_app; by left|]].
    + f_equal. simpl.
      rewrite (decide_False (P := Some l = Some x)) by (by intros [= ->]).
      destruct (decide (root_of tl = Some x)) as [|Hrl]; [done|].
      rewrite decide_False
        by (intros H; apply root_of_in in H; by apply Hxr).
      by destruct (parent_of_in x tl Hx Hrl) as (p & ->).
    + by rewrite subtree_at_Node_l.
  - exists l, tl, tr. simpl. rewrite (st_irrefl _ lt_order).
    rewrite !decide_True by done. split; [done|]. split; [left|done].
  - destruct (IHr (Some l) Hbr Hndr Hin) as (x & a & b & Hloc & Hx & Hsub).
    assert (Hlx : l ≠ x) by (by intros ->).
    assert (Hxl : x ∉ locs tl) by (intros H; by apply (Hdisj x)).
    exists x, a, b. simpl locate.
    rewrite (lt_asym _ _ (Hgt _ Hin)), (Hgt _ Hin), Hloc.
    split; [|split; [right; apply elem_of_app; by right|]].
    + f_equal. simpl.
      rewrite (decide_False (P := Some l = Some x)) by (by intros [= ->]).
      rewrite (decide_False (P := root_of tl = Some x))
        by (intros H; apply root_of_in in H; by apply Hxl).
      destruct (decide (root_of tr = Some x)) as [|Hrr]; [done|].
      by rewrite (parent_of_notin x tl Hxl).
    + by rewrite subtree_at_Node_r.
Qed.

(** [remove] with the locals holding what the documentation of [search2]
    promises: the node that holds [item] is taken out, the rest of the
    inorder sequence stays as it is, and the order invariant is kept.  The
    body of [remove] after the lookup is right; what is missing is the
    lookup. *)
Lemma remove_located fuel item (w : world) (t : tree) :
  is_tree w t → bst lt t → item ∈ elements t → height t ≤ fuel →
  ∃ x parent w',
    locate lt item t None = (true, Some x, parent)
    ∧ remove fuel item true (Some x) parent w = Ok tt w'
    ∧ is_tree w' (remove_node x t)
    ∧ bst lt (remove_node x t)
    ∧ ∃ l1 l2, elements t = l1 ++ item :: l2
               ∧ elements (remove_node x t) = l1 ++ l2.
Proof using lt_order.
  clear show.
  intros Ht Hb Hin Hf.
  pose proof Ht as (Hroot & Hs & Hnd).
  destruct (locate_found item t None Hb Hnd Hin)
    as (x & tl & tr & Hloc & Hx & Hsub).
  pose proof (subtree_at_shape (heap w) x t Hs) as Hss.
  rewrite Hsub in Hss. destruct Hss as (Hhx & _ & _).
  exists x, (if decide (root_of t = Some x) then None else parent_of x t).
  destruct (leaf_dec tl) as [Htl|Htl]; [|destruct (leaf_dec tr) as [Htr|Htr]].
  - (* no left child *)
    destruct (remove_one_located fuel item w t x tl item tr Ht Hx Hsub)
      as (w' & Hrun & Ht'); [by left|].
    subst tl. simpl in Ht'.
    assert (Hrn : remove_node x t = replace_at x tr t).
    { unfold remove_node. by rewrite Hsub. }
    rewrite Hrn. exists w'. split; [done|]. split; [done|].
    split; [done|]. split.
    + pose proof (bst_subtree_at x t Hb) as Hbs. rewrite Hsub in Hbs.
      apply bst_replace_at; [done|done|by destruct Hbs as (_ & _ & _ & ?)|].
      intros e He. rewrite Hsub. simpl. by right.
    + destruct (elements_replace_at x tr t Hnd Hx) as (l1 & l2 & E1 & E2).
      rewrite Hsub in E1. simpl in E1.
      exists l1, (elements tr ++ l2). by rewrite E1, E2.
  - (* a left child only *)
    destruct (remove_one_located fuel item w t x tl item tr Ht Hx Hsub)
      as (w' & Hrun & Ht'); [by right|].
    subst tr.
    assert (Hoc : only_child tl Leaf = tl) by (by destruct tl).
    rewrite Hoc in Ht'.
    assert (Hrn : remove_node x t = replace_at x tl t).
    { unfold remove_node. rewrite Hsub. by destruct tl. }
    rewrite Hrn. exists w'. split; [done|]. split; [done|].
    split; [done|]. split.
    + pose proof (bst_subtree_at x t Hb) as Hbs. rewrite Hsub in Hbs.
      apply bst_replace_at; [done|done|by destruct Hbs as (_ & _ & ? & _)|].
      intros e He. rewrite Hsub. simpl. apply elem_of_app. by left.
    + destruct (elements_replace_at x tl t Hnd Hx) as (l1 & l2 & E1 & E2).
      rewrite Hsub in E1. simpl in E1.
      exists (l1 ++ elements tl), l2.
      rewrite E1, E2. by rewrite <- !(assoc_L (++)).
  - (* two children *)
    destruct tr as [|b trl db trr]; [done|].
    assert (Hrn : remove_node x t = remove_two x t).
    { unfold remove_node. rewrite Hsub. by destruct tl. }
    assert (Hl : left (mkBinNode item (root_of tl) (Some b)) ≠ None).
    { simpl. by destruct tl. }
    destruct (remove_two_run fuel item
                (if decide (root_of t = Some x) then None else parent_of x t)
                w t x _ b Ht Hx Hf Hhx Hl eq_refl)
      as (xs & sn & ps & pn & w' & _ & _ & _ & _ & _ & Hrun & _ & _ & Ht').
    destruct (remove_two_pure x t tl item (Node b trl db trr)
                Hnd Hx Hsub) as (Helts & Hbst); [done|].
    rewrite Hrn. exists w'. split; [done|]. split; [done|].
    split; [done|]. split; [by apply Hbst|done].
Qed.

Lemma inorder_writes_text fuel out separator (w : world) (t : tree) :
  is_tree w t → height t < fuel →
  inorder show fuel out separator w
  = Ok (out +:+ inorder_text show separator t) w.
Proof.
  intros (Hroot & Hs & _) Hf. unfold inorder.
  rewrite (bind_Ok get_myRoot _ w (myRoot w) w eq_refl), Hroot.
  by apply inorderAux_text.
Qed.

Lemma graph_writes_text fuel out (w : world) (t : tree) :
  is_tree w t → height t < fuel → (8 * Z.of_nat (height t) ≤ INT_MAX)%Z →
  graph show fuel out w = Ok (out +:+ graph_text show 0 t) w.
Proof.
  intros (Hroot & Hs & _) Hf Hmax. unfold graph.
  rewrite (bind_Ok get_myRoot _ w (myRoot w) w eq_refl), Hroot.
  apply graphAux_text; [done|done|lia|lia].
Qed.

(** The traversals write; they never store: whatever the heap looks like, a
    call that returns leaves the world it found. *)
Lemma inorderAux_frame fuel out p separator (w w' : world) out' :
  inorderAux show fuel out p separator w = Ok out' w' → w' = w.
Proof.
  revert out p w w' out'.
  induction fuel as [|fuel IH]; intros out p w w' out'; [done|]. simpl.
  destruct (not_null p); [|by intros [= _ ->]].
  unfold mbind, M_bind, bind, load.
  destruct p as [l|]; [|done].
  destruct (heap w !! l) as [nd|]; [|done].
  destruct (inorderAux show fuel out (left nd) separator w)
    as [out1 w1| | |] eqn:H1; try done.
  apply IH in H1 as ->. apply IH.
Qed.

Lemma graphAux_frame fuel out indent p (w w' : world) out' :
  graphAux show fuel out indent p w = Ok out' w' → w' = w.
Proof.
  revert out indent p w w' out'.
  induction fuel as [|fuel IH]; intros out indent p w w' out'; [done|]. simpl.
  destruct (not_null p); [|by intros [= _ ->]].
  unfold mbind, M_bind, bind, load, int_add.
  destruct p as [l|]; [|done].
  destruct (heap w !! l) as [nd|]; [|done].
  destruct (bool_decide _); [|done]. unfold ret.
  destruct (graphAux show fuel out (indent + 8) (right nd) w)
    as [out1 w1| | |] eqn:H1; try done.
  apply IH in H1 as ->. apply IH.
Qed.

(** ** Sequences of insertions *)

Lemma elements_dec item (l : list DataType) : item ∈ l ∨ item ∉ l.
Proof.
  induction l as [|a l IH]; [right; apply not_elem_of_nil|].
  destruct IH as [IH|IH]; [left; by right|].
  destruct (lt item a) eqn:H1; [|destruct (lt a item) eqn:H2].
  - right. apply not_elem_of_cons. split; [|done].
    intros ->. by rewrite (st_irrefl _ lt_order) in H1.
  - right. apply not_elem_of_cons. split; [|done].
    intros ->. by rewrite (st_irrefl _ lt_order) in H2.
  - left. rewrite (st_total _ lt_order _ _ H1 H2). left.
Qed.

Lemma height_ins new item (t : tree) :
  height (ins lt new item t) ≤ S (height t).
Proof.
  induction t as [|l tl IHl d tr IHr]; simpl; [lia|].
  destruct (lt item d); simpl; [lia|].
  destruct (lt d item); simpl; lia.
Qed.

Lemma insert_all_tree fuel items (w : world) (t : tree) :
  is_tree w t → bst lt t → height t + length items ≤ fuel →
  ∃ w' (t' : tree),
    insert_all lt fuel items w = Ok tt w'
    ∧ is_tree w' t' ∧ bst lt t'
    ∧ height t' ≤ height t + length items
    ∧ (∀ e, e ∈ elements t' ↔ e ∈ elements t ∨ e ∈ items).
Proof using lt_order.
  clear show.
  revert w t.
  induction items as [|item items IH]; intros w t Ht Hb Hf.
  { exists w, t. split; [done|]. split; [done|]. split; [done|].
    split; [simpl; lia|]. intros e. rewrite elem_of_nil. tauto. }
  simpl in Hf. simpl.
  destruct (elements_dec item (elements t)) as [Hin|Hnin].
  - destruct (descend_found item t None Hb Hin) as (l & _ & Hdesc).
    rewrite (insert_found_throws fuel item w t l Ht) by (lia || done).
    destruct (IH w t Ht Hb) as (w' & t' & Hrun & Ht' & Hb' & Hh & Hel);
      [lia|].
    exists w', t'. split; [done|]. split; [done|]. split; [done|].
    split; [lia|]. intros e. rewrite Hel, elem_of_cons.
    split; [tauto|]. intros [?|[->|?]]; tauto.
  - destruct (insert_absent_run fuel item w t Ht Hnin) as
      (w1 & Hrun1 & _ & Ht1); [lia|].
    rewrite Hrun1.
    pose proof (bst_ins (fresh (dom (heap w))) item t Hnin Hb) as Hb1.
    pose proof (elements_ins (fresh (dom (heap w))) item t Hnin) as Hperm.
    pose proof (height_ins (fresh (dom (heap w))) item t) as Hh1.
    destruct (IH w1 _ Ht1 Hb1) as (w' & t' & Hrun & Ht' & Hb' & Hh & Hel);
      [lia|].
    exists w', t'. split; [done|]. split; [done|]. split; [done|].
    split; [lia|]. intros e. rewrite Hel, Hperm, !elem_of_cons. tauto.
Qed.

(** Inserting any items into an empty tree gives a tree that holds exactly
    those items, and [inorder] writes them in ascending order. *)
Lemma inserts_ascending items (h : gmap loc BinNode) out separator :
  ∃ w' (t' : tree),
    insert_all lt (length items) items (BST_new h) = Ok tt w'
    ∧ is_tree w' t' ∧ bst lt t'
    ∧ ascending lt (elements t')
    ∧ (∀ e, e ∈ elements t' ↔ e ∈ items)
    ∧ inorder show (S (length items)) out separator w'
      = Ok (out +:+ inorder_text show separator t') w'.
Proof.
  destruct (insert_all_tree (length items) items (BST_new h) Leaf)
    as (w' & t' & Hrun & Ht' & Hb' & Hh & Hel).
  { split; [done|]. split; [done|]. constructor. }
  { done. }
  { simpl. lia. }
  exists w', t'. split; [done|]. split; [done|]. split; [done|].
  split; [by apply bst_ascending|].
  split. { intros e. rewrite Hel. simpl. rewrite elem_of_nil. tauto. }
  apply inorder_writes_text; [done|]. simpl in Hh. lia.
Qed.

(** ** The claims about insert *)

(** C3. [insert] of a value that is already in the tree (a tree that obeys
    the order invariant, walked with enough fuel) ends in the exception
    "Item already in the tree", and the heap and [myRoot] it leaves are the
    ones it started from: no node is created, no link or value changes. *)
Theorem insert_duplicate_throws fuel item (w : world) (t : tree) :
  is_tree w t → bst lt t → item ∈ elements t → height t ≤ fuel →
  insert lt fuel item w = Throw "Item already in the tree" w.
Proof.
  intros Ht Hb Hin Hf.
  destruct (descend_found item t None Hb Hin) as (l & _ & Hdesc).
  by apply (insert_found_throws fuel item w t l).
Qed.

(** C4. [insert] of a value that is not in the tree returns; the heap gains
    exactly one node, at a location that was free, holding [item] and two
    null links; that node becomes the root of an empty tree, and otherwise
    the left child of the last visited node when [item] is less than its
    value and its right child when greater, the link written being null
    before; the result is again a tree that obeys the order invariant and
    has exactly one element more, [item]. *)
Theorem insert_absent_links fuel item (w : world) (t : tree) :
  is_tree w t → bst lt t → item ∉ elements t → height t ≤ fuel →
  let new := fresh (dom (heap w)) in
  ∃ w',
    insert lt fuel item w = Ok tt w'
    ∧ heap w !! new = None
    ∧ heap w' !! new = Some (mkBinNode item None None)
    ∧ dom (heap w') = {[new]} ∪ dom (heap w)
    ∧ linked_below lt item new t w w'
    ∧ is_tree w' (ins lt new item t)
    ∧ bst lt (ins lt new item t)
    ∧ ascending lt (elements (ins lt new item t))
    ∧ elements (ins lt new item t) ≡ₚ item :: elements t
    ∧ length (elements (ins lt new item t)) = S (length (elements t)).
Proof using lt_order.
  clear show.
  intros Ht Hb Hin Hf new.
  destruct (insert_absent_run fuel item w t Ht Hin Hf)
    as (w' & Hrun & Hlink & Ht').
  fold new in Hlink, Ht'.
  assert (Hfree : heap w !! new = None).
  { apply not_elem_of_dom. apply is_fresh. }
  destruct (linked_below_dom item new t w w' Hfree Hlink) as (Hnew & Hdom).
  pose proof (bst_ins new item t Hin Hb) as Hb'.
  pose proof (elements_ins new item t Hin) as Hperm.
  exists w'. split_and!; try done.
  - by apply bst_ascending.
  - by rewrite Hperm.
Qed.

(** ** The claims about the traversals and the picture *)

Lemma graph_text_spec indent (t : tree) :
  (1 ≤ indent)%Z → graph_text show indent t = graph_spec show indent t.
Proof.
  revert indent.
  induction t as [|l tl IHl d tr IHr]; intros indent Hi; simpl.
  - by rewrite Z.max_l by done.
  - rewrite Z.max_l by done. by rewrite IHl, IHr by lia.
Qed.

(** C9, as the code has it.  [graph] writes the right subtree one step of 8
    further in, then the value, then the left subtree one step of 8 further
    in, with ["_"] for every absent child; below the root every line starts
    with as many blanks as its indent (8 for each level), but the line of
    the root, and the placeholder of an empty tree, start with one blank,
    not none: [setw(0)] does not shorten the one-character string it
    pads. *)
Theorem graph_rendering fuel out (w : world) (t : tree) :
  is_tree w t → height t < fuel → (8 * Z.of_nat (height t) ≤ INT_MAX)%Z →
  graph show fuel out w = Ok (out +:+ graph_text show 0 t) w
  ∧ graph_text show 0 t
    = match t with
      | Leaf => line 1 "_"
      | Node _ tl d tr =>
          graph_spec show 8 tr +:+ line 1 (show d) +:+ graph_spec show 8 tl
      end.
Proof.
  intros Ht Hf Hmax. split; [by apply graph_writes_text|].
  destruct t as [|l tl d tr]; [done|]. simpl.
  by rewrite !graph_text_spec by done.
Qed.

(** C10. On a tree, [inorder], [preorder], [postorder] and [graph] return,
    the world they leave (heap and [myRoot]) is the one they found, and
    what they did is append text to the stream; [graph] on an empty tree
    appends one line, the placeholder. *)
Theorem traversals_leave_tree fuel out separator (w : world) (t : tree) :
  is_tree w t → height t < fuel → (8 * Z.of_nat (height t) ≤ INT_MAX)%Z →
  (∃ text, inorder show fuel out separator w = Ok (out +:+ text) w)
  ∧ (∃ text, preorder out separator w = Ok (out +:+ text) w)
  ∧ (∃ text, postorder out separator w = Ok (out +:+ text) w)
  ∧ (∃ text, graph show fuel out w = Ok (out +:+ text) w)
  ∧ (t = Leaf → graph show fuel out w = Ok (out +:+ line 1 "_") w).
Proof.
  intros Ht Hf Hmax.
  split; [eexists; by apply inorder_writes_text|].
  split; [exists ""; unfold preorder; by rewrite append_nil_r|].
  split; [exists ""; unfold postorder; by rewrite append_nil_r|].
  split; [eexists; by apply graph_writes_text|].
  intros ->. by rewrite (graph_writes_text fuel out w Leaf).
Qed.

(** ** The unfinished members *)

(** [search] never looks at the tree. *)
Lemma search_stub item (w : world) : search item w = Ok false w.
Proof. reflexivity. Qed.

(** [remove] never looks at [item]: [search2] does not, and nothing else
    reads it. *)
Lemma remove_item_blind fuel item item' found x parent (w : world) :
  remove fuel item found x parent w = remove fuel item' found x parent w.
Proof. reflexivity. Qed.

(** When [found] reads false, the exception is raised whatever the tree
    holds. *)
Lemma remove_found_false fuel item x parent (w : world) :
  remove fuel item false x parent w = Throw "Item not in the BST" w.
Proof. reflexivity. Qed.

(** When [found] reads true and [x] does not point to a node, the call
    dereferences it. *)
Lemma remove_found_true_dangling fuel item x parent (w : world) :
  (∀ l, x = Some l → heap w !! l = None) →
  remove fuel item true x parent w = Undefined.
Proof.
  intros Hx. unfold remove, search2, mbind, M_bind, bind, ret, load.
  destruct x as [l|]; simpl; [|done]. by rewrite (Hx l).
Qed.

(** ** Further properties of the members *)

(** [empty()] returns, leaves the world as it is, and answers true exactly
    when the tree holds no element. *)
Theorem empty_iff_no_elements (w : world) (t : tree) :
  is_tree w t →
  ∃ b, empty w = Ok b w ∧ (b = true ↔ elements t = []).
Proof.
  intros (Hroot & _ & _).
  unfold empty. rewrite (bind_Ok get_myRoot _ w (myRoot w) w eq_refl), Hroot.
  destruct t as [|l tl d tr].
  - exists true. by split.
  - exists false. split; [done|]. simpl. split; [done|].
    intros H. symmetry in H. by apply app_cons_not_nil in H.
Qed.

(** After [insert], whether it returned or threw, [empty()] answers
    false. *)
Theorem insert_then_not_empty fuel item (w : world) (t : tree) :
  is_tree w t → bst lt t → height t ≤ fuel →
  ∃ w',
    (insert lt fuel item w = Ok tt w'
     ∨ insert lt fuel item w = Throw "Item already in the tree" w')
    ∧ empty w' = Ok false w'.
Proof using lt_order.
  clear show.
  intros Ht Hb Hf.
  assert (Hne : ∀ (w0 : world) (t0 : tree),
            is_tree w0 t0 → t0 ≠ Leaf → empty w0 = Ok false w0).
  { intros w0 t0 (Hroot & _ & _) Hnl. unfold empty.
    rewrite (bind_Ok get_myRoot _ w0 (myRoot w0) w0 eq_refl), Hroot.
    by destruct t0. }
  destruct (elements_dec item (elements t)) as [Hin|Hnin].
  - destruct (descend_found item t None Hb Hin) as (l & _ & Hdesc).
    exists w. split; [right; by apply (insert_found_throws fuel item w t l)|].
    apply (Hne w t Ht). intros ->. by apply elem_of_nil in Hin.
  - destruct (insert_absent_run fuel item w t Ht Hnin Hf)
      as (w' & Hrun & _ & Ht').
    exists w'. split; [by left|].
    apply (Hne w' _ Ht'). destruct t as [|l tl d tr]; [done|]. simpl.
    destruct (lt item d); [done|]. by destruct (lt d item).
Qed.

(** Inserting a value and inserting it again: the first call returns, the
    second throws and leaves the world of the first. *)
Theorem insert_twice_throws fuel item (w : world) (t : tree) :
  is_tree w t → bst lt t → item ∉ elements t → S (height t) ≤ fuel →
  ∃ w',
    insert lt fuel item w = Ok tt w'
    ∧ insert lt fuel item w' = Throw "Item already in the tree" w'.
Proof using lt_order.
  clear show.
  intros Ht Hb Hnin Hf.
  destruct (insert_absent_run fuel item w t Ht Hnin) as (w' & Hrun & _ & Ht');
    [lia|].
  set (new := fresh (dom (heap w))) in *.
  pose proof (bst_ins new item t Hnin Hb) as Hb'.
  assert (Hin' : item ∈ elements (ins lt new item t)).
  { rewrite (elements_ins new item t Hnin). left. }
  pose proof (height_ins new item t) as Hh.
  destruct (descend_found item _ None Hb' Hin') as (l & _ & Hdesc).
  exists w'. split; [done|].
  apply (insert_found_throws fuel item w' _ l Ht'); [lia|done].
Qed.

Lemma joined_app separator (l1 l2 : list DataType) :
  joined show separator (l1 ++ l2)
  = joined show separator l1 +:+ joined show separator l2.
Proof.
  induction l1 as [|d l1 IH]; [done|]. simpl.
  by rewrite IH, !append_assoc.
Qed.

Lemma inorder_text_joined separator (t : tree) :
  inorder_text show separator t = joined show separator (elements t).
Proof.
  induction t as [|l tl IHl d tr IHr]; [done|]. simpl.
  rewrite joined_app, IHl, IHr. simpl. by rewrite !append_assoc.
Qed.

(** [inorder] on a tree writes every element once, each followed by the
    separator, in left-value-right order; under the order invariant that
    order is strictly ascending.  An empty tree gives no output. *)
Theorem inorder_writes_elements fuel out separator (w : world) (t : tree) :
  is_tree w t → height t < fuel →
  inorder show fuel out separator w
  = Ok (out +:+ joined show separator (elements t)) w
  ∧ (bst lt t → ascending lt (elements t)).
Proof using lt_order.
  intros Ht Hf. split.
  - rewrite <- inorder_text_joined. by apply inorder_writes_text.
  - apply bst_ascending.
Qed.

Lemma elements_ins_split new item (t : tree) :
  item ∉ elements t → bst lt t →
  ∃ l1 l2,
    elements t = l1 ++ l2
    ∧ elements (ins lt new item t) = l1 ++ item :: l2
    ∧ Forall (fun e => lt e item = true) l1
    ∧ Forall (fun e => lt item e = true) l2.
Proof using lt_order.
  clear show.
  induction t as [|l tl IHl d tr IHr]; intros Hnin Hb.
  { exists [], []. by repeat split. }
  simpl in Hnin, Hb.
  rewrite not_elem_of_app, not_elem_of_cons in Hnin.
  destruct Hnin as (Hl & Hd & Hr).
  destruct Hb as (Hlt & Hgt & Hbl & Hbr). simpl.
  destruct (lt item d) eqn:H1; [|destruct (lt d item) eqn:H2].
  - destruct (IHl Hl Hbl) as (l1 & l2 & E1 & E2 & F1 & F2).
    exists l1, (l2 ++ d :: elements tr). simpl.
    rewrite E1 at 1. rewrite E2, <- !(assoc_L (++)).
    split; [done|]. split; [done|]. split; [done|].
    apply Forall_app. split; [done|]. constructor; [done|].
    eapply Forall_impl; [exact Hgt|]. intros e He. simpl in He.
    by apply (st_trans _ lt_order _ d).
  - destruct (IHr Hr Hbr) as (l1 & l2 & E1 & E2 & F1 & F2).
    exists (elements tl ++ d :: l1), l2. simpl.
    rewrite E1 at 1. rewrite E2, <- !(assoc_L (++)).
    split; [done|]. split; [done|]. split; [|done].
    apply Forall_app. split; [|by constructor].
    eapply Forall_impl; [exact Hlt|]. intros e He. simpl in He.
    by apply (st_trans _ lt_order _ d).
  - destruct Hd. by apply (st_total _ lt_order).
Qed.

(** [insert] of a new value puts it at its place in the order and moves
    nothing else: [inorder] afterwards writes the elements that were less,
    then the value, then the elements that were greater. *)
Theorem insert_at_sorted_position fuel out separator item
    (w : world) (t : tree) :
  is_tree w t → bst lt t → item ∉ elements t → S (height t) < fuel →
  ∃ w' l1 l2,
    insert lt fuel item w = Ok tt w'
    ∧ elements t = l1 ++ l2
    ∧ Forall (fun e => lt e item = true) l1
    ∧ Forall (fun e => lt item e = true) l2
    ∧ inorder show fuel out separator w'
      = Ok (out +:+ joined show separator (l1 ++ item :: l2)) w'.
Proof using lt_order.
  intros Ht Hb Hnin Hf.
  destruct (insert_absent_run fuel item w t Ht Hnin) as (w' & Hrun & _ & Ht');
    [lia|].
  set (new := fresh (dom (heap w))) in *.
  destruct (elements_ins_split new item t Hnin Hb)
    as (l1 & l2 & E1 & E2 & F1 & F2).
  pose proof (height_ins new item t) as Hh.
  exists w', l1, l2. split; [done|]. split; [done|].
  split; [done|]. split; [done|].
  rewrite <- E2, <- inorder_text_joined.
  apply inorder_writes_text; [done|lia].
Qed.

Lemma ascending_same_members (l1 l2 : list DataType) :
  ascending lt l1 → ascending lt l2 →
  (∀ e, e ∈ l1 ↔ e ∈ l2) → l1 = l2.
Proof using lt_order.
  clear show.
  intros H1 H2 Hmem.
  apply (StronglySorted_unique_strong (fun a b => lt a b = true));
    [|done|done|].
  - intros a b _ _ Hab Hba. by rewrite (lt_asym _ _ Hab) in Hba.
  - apply NoDup_Permutation; [by apply ascending_NoDup..|done].
Qed.

(** What [inorder] writes after a run of insertions depends on which values
    were inserted, not on their order. *)
Theorem insert_order_irrelevant fuel out separator items1 items2
    (w : world) (t : tree) :
  is_tree w t → bst lt t → items1 ≡ₚ items2 →
  height t + length items1 ≤ fuel →
  ∃ w1 w2 text,
    insert_all lt fuel items1 w = Ok tt w1
    ∧ insert_all lt fuel items2 w = Ok tt w2
    ∧ inorder show (S fuel) out separator w1 = Ok (out +:+ text) w1
    ∧ inorder show (S fuel) out separator w2 = Ok (out +:+ text) w2.
Proof using lt_order.
  intros Ht Hb Hperm Hf.
  destruct (insert_all_tree fuel items1 w t Ht Hb Hf)
    as (w1 & t1 & Hrun1 & Ht1 & Hb1 & Hh1 & Hel1).
  destruct (insert_all_tree fuel items2 w t Ht Hb)
    as (w2 & t2 & Hrun2 & Ht2 & Hb2 & Hh2 & Hel2).
  { by rewrite <- Hperm. }
  rewrite <- Hperm in Hh2.
  assert (Heq : elements t1 = elements t2).
  { apply ascending_same_members; [by apply bst_ascending..|].
    intros e. rewrite Hel1, Hel2. by rewrite Hperm. }
  exists w1, w2, (joined show separator (elements t1)).
  split; [done|]. split; [done|]. split.
  - rewrite <- inorder_text_joined. apply inorder_writes_text; [done|lia].
  - rewrite Heq, <- inorder_text_joined.
    apply inorder_writes_text; [done|lia].
Qed.

(** ** The exception of remove *)

Lemma no_throw_ret {A} (a : A) : no_throw (ret a : M A).
Proof. by intros w what w'. Qed.

Lemma no_throw_bind {A B} (m : M A) (k : A → M B) :
  no_throw m → (∀ a, no_throw (k a)) → no_throw (m ≫= k).
Proof.
  intros Hm Hk w what w'. unfold mbind, M_bind, bind.
  destruct (m w) as [a w1|what1 w1| |] eqn:E; [apply Hk| |done|done].
  by apply Hm in E.
Qed.

Lemma no_throw_load p : no_throw (load p : M BinNode).
Proof.
  intros w what w'. unfold load. destruct p as [l|]; [|done].
  by destruct (heap w !! l).
Qed.

Lemma no_throw_store p (nd : BinNode) : no_throw (store p nd).
Proof.
  intros w what w'. unfold store. destruct p as [l|]; [|done].
  by destruct (heap w !! l).
Qed.

Lemma no_throw_delete_node p : no_throw (delete_node p : M unit).
Proof.
  intros w what w'. unfold delete_node. destruct p as [l|]; [|done].
  by destruct (heap w !! l).
Qed.

Lemma no_throw_set_myRoot p : no_throw (set_myRoot p : M unit).
Proof. by intros w what w'. Qed.

Lemma no_throw_set_data p (d : DataType) : no_throw (set_data p d).
Proof.
  apply no_throw_bind; [apply no_throw_load|]. intros nd. apply no_throw_store.
Qed.

Lemma no_throw_set_left p q : no_throw (set_left p q : M unit).
Proof.
  apply no_throw_bind; [apply no_throw_load|]. intros nd. apply no_throw_store.
Qed.

Lemma no_throw_set_right p q : no_throw (set_right p q : M unit).
Proof.
  apply no_throw_bind; [apply no_throw_load|]. intros nd. apply no_throw_store.
Qed.

Lemma no_throw_succ_loop fuel xSucc parent :
  no_throw (succ_loop fuel xSucc parent : M (ptr * ptr)).
Proof.
  revert xSucc parent.
  induction fuel as [|fuel IH]; intros xSucc parent; simpl;
    (apply no_throw_bind; [apply no_throw_load|]); intros sn;
    (destruct (not_null (left sn)); [|apply no_throw_ret]).
  - by intros w what w'.
  - apply IH.
Qed.

(** The one exception of [remove]: it is thrown exactly when [found] reads
    false, it says "Item not in the BST", and the world is the one the call
    started in.  Once [found] reads true nothing is thrown, whatever [x] and
    [parent] point to. *)
Theorem remove_throws_iff fuel item found x parent (w w' : world) what :
  remove fuel item found x parent w = Throw what w'
  ↔ found = false ∧ what = "Item not in the BST" ∧ w' = w.
Proof.
  split.
  - destruct found.
    + intros H. exfalso. revert H.
      change (remove fuel item true x parent w)
        with ((xn ← load x;
               '(x0, parent0) ←
                 (if not_null (left xn) && not_null (right xn) then
                    '(xSucc, parent1) ← succ_loop fuel (right xn) x;
                    sn ← load xSucc;
                    set_data x (data sn);;
                    ret (xSucc, parent1)
                  else ret (x, parent));
               xn0 ← load x0;
               (if ptr_eqb parent0 None
                then set_myRoot
                       (if ptr_eqb (left xn0) None
                        then right xn0 else left xn0)
                else
                  pn ← load parent0;
                  if ptr_eqb (left pn) x0
                  then set_left parent0
                         (if ptr_eqb (left xn0) None
                          then right xn0 else left xn0)
                  else set_right parent0
                         (if ptr_eqb (left xn0) None
                          then right xn0 else left xn0));;
               delete_node x0) w).
      apply no_throw_bind; [apply no_throw_load|]. intros xn.
      apply no_throw_bind.
      { destruct (not_null (left xn) && not_null (right xn));
          [|apply no_throw_ret].
        apply no_throw_bind; [apply no_throw_succ_loop|].
        intros [xSucc parent1].
        apply no_throw_bind; [apply no_throw_load|]. intros sn.
        apply no_throw_bind; [apply no_throw_set_data|]. intros _.
        apply no_throw_ret. }
      intros [x0 parent0].
      apply no_throw_bind; [apply no_throw_load|]. intros xn0.
      apply no_throw_bind; [|intros _; apply no_throw_delete_node].
      destruct (ptr_eqb parent0 None); [apply no_throw_set_myRoot|].
      apply no_throw_bind; [apply no_throw_load|]. intros pn.
      destruct (ptr_eqb (left pn) x0);
        [apply no_throw_set_left|apply no_throw_set_right].
    + by intros [= <- <-].
  - intros (-> & -> & ->). reflexivity.
Qed.

(** ** remove on a node of the tree *)

Lemma node_children_in_tree (h : gmap loc BinNode) (t : tree) l n :
  shape h t → l ∈ locs t → h !! l = Some n →
  (∀ c, left n = Some c → c ∈ locs t)
  ∧ (∀ c, right n = Some c → c ∈ locs t).
Proof.
  intros Hs Hin Hl.
  destruct (subtree_at_in l t Hin) as (tl & d & tr & Hsub).
  pose proof (subtree_at_shape h l t Hs) as Hss.
  rewrite Hsub in Hss. destruct Hss as (Hl' & _ & _).
  rewrite Hl in Hl'. injection Hl' as ->. simpl.
  split; intros c Hc; apply root_of_in in Hc;
    apply (subtree_at_locs l t); rewrite Hsub; right;
    apply elem_of_app; [by left|by right].
Qed.

Lemma left_spine_in_tree (h : gmap loc BinNode) (t : tree) b y :
  shape h t → left_spine h b y → b ∈ locs t → y ∈ locs t.
Proof.
  intros Hs Hsp. induction Hsp as [b|b bn c y Hb Hc _ IH]; [done|].
  intros Hin. apply IH.
  destruct (node_children_in_tree h t b bn Hs Hin Hb) as (Hl & _).
  by apply Hl.
Qed.

Lemma parent_of_locs x (t : tree) p : parent_of x t = Some p → p ∈ locs t.
Proof.
  induction t as [|l tl IHl d tr IHr]; [done|]. simpl.
  destruct (decide (root_of tl = Some x)); [intros [= ->]; left|].
  destruct (decide (root_of tr = Some x)); [intros [= ->]; left|].
  destruct (parent_of x tl) as [q|] eqn:Hq.
  - intros [= ->]. right. apply elem_of_app. left. by apply IHl.
  - intros Hp. right. apply elem_of_app. right. by apply IHr.
Qed.

(** What a run of [remove] on a node with at most one child does to the
    heap: the node is freed, no location is gained, and nothing outside the
    tree is written. *)
Lemma remove_one_dom fuel item (w w' : world) (t : tree) x tl d tr :
  is_tree w t → x ∈ locs t →
  subtree_at x t = Node x tl d tr → tl = Leaf ∨ tr = Leaf →
  remove fuel item true (Some x)
    (if decide (root_of t = Some x) then None else parent_of x t) w
  = Ok tt w' →
  dom (heap w') = dom (heap w) ∖ {[x]}
  ∧ ∀ l, l ∉ locs t → heap w' !! l = heap w !! l.
Proof using Type.
  clear show.
  intros (Hroot & Hs & Hnd) Hin Hsub Hone Hrun.
  pose proof (subtree_at_shape (heap w) x t Hs) as Hss.
  rewrite Hsub in Hss. destruct Hss as (Hx & _ & _).
  assert (Hone' : left (mkBinNode d (root_of tl) (root_of tr)) = None
                  ∨ right (mkBinNode d (root_of tl) (root_of tr)) = None).
  { destruct Hone as [->| ->]; [by left|by right]. }
  destruct (remove_one_run fuel item w x _ Hx Hone') as (Hrun0 & Hrunp).
  destruct (decide (root_of t = Some x)) as [Hrt|Hrt].
  - rewrite Hrun0 in Hrun. injection Hrun as <-. simpl.
    split; [apply dom_delete_L|].
    intros l Hl. apply lookup_delete_ne. by intros ->.
  - destruct (parent_of_in x t Hin Hrt) as (p & Hp).
    pose proof (parent_of_locs x t p Hp) as Hp_in.
    destruct (shape_allocated (heap w) t p Hs Hp_in) as (pn & Hpn).
    rewrite Hp, (Hrunp p pn Hpn) in Hrun. injection Hrun as <-.
    unfold unlinked. simpl. split.
    + rewrite dom_delete_L, dom_insert_L. apply elem_of_dom_2 in Hpn.
      apply set_eq. intros y.
      rewrite !elem_of_difference, elem_of_union, elem_of_singleton.
      split; [|tauto]. intros [[->|?] ?]; tauto.
    + intros l Hl.
      rewrite lookup_delete_ne, lookup_insert_ne; [done|..];
        by intros ->.
Qed.

(** The same for the two-children case: the node freed is the successor. *)
Lemma spliced_dom x (xn : BinNode) xs sn ps pn (h : gmap loc BinNode) :
  is_Some (h !! x) → is_Some (h !! ps) →
  dom (spliced x xn xs sn ps pn h) = dom h ∖ {[xs]}.
Proof using Type.
  clear show.
  intros Hx Hps. unfold spliced.
  rewrite dom_delete_L, !dom_insert_L.
  apply elem_of_dom in Hx, Hps.
  apply set_eq. intros y.
  rewrite !elem_of_difference, !elem_of_union, !elem_of_singleton.
  split; [|tauto]. intros [[->|[->|?]] ?]; tauto.
Qed.

(** [remove], with [x] pointing to a node of the tree and [parent] to its
    parent (null for the root), takes exactly the value of that node out:
    what is left is a tree, the inorder sequence is the old one without that
    value, and the order invariant is kept.  This covers a leaf, a node with
    one child and a node with two children, at the root or below it. *)
Theorem remove_unlinks_node fuel item (w : world) (t tl tr : tree) x d :
  is_tree w t → x ∈ locs t → height t ≤ fuel →
  subtree_at x t = Node x tl d tr →
  ∃ w',
    remove fuel item true (Some x)
      (if decide (root_of t = Some x) then None else parent_of x t) w
    = Ok tt w'
    ∧ is_tree w' (remove_node x t)
    ∧ (∃ l1 l2, elements t = l1 ++ d :: l2
                ∧ elements (remove_node x t) = l1 ++ l2)
    ∧ (bst lt t → bst lt (remove_node x t)).
Proof using lt_order.
  clear show.
  intros Ht Hx Hf Hsub.
  pose proof Ht as (Hroot & Hs & Hnd).
  pose proof (subtree_at_shape (heap w) x t Hs) as Hss.
  rewrite Hsub in Hss. destruct Hss as (Hhx & _ & _).
  destruct (leaf_dec tl) as [Htl|Htl]; [|destruct (leaf_dec tr) as [Htr|Htr]].
  - destruct (remove_one_located fuel item w t x tl d tr Ht Hx Hsub)
      as (w' & Hrun & Ht'); [by left|].
    subst tl. simpl in Ht'.
    assert (Hrn : remove_node x t = replace_at x tr t).
    { unfold remove_node. by rewrite Hsub. }
    rewrite Hrn. exists w'. split; [done|]. split; [done|]. split.
    + destruct (elements_replace_at x tr t Hnd Hx) as (l1 & l2 & E1 & E2).
      rewrite Hsub in E1. simpl in E1.
      exists l1, (elements tr ++ l2). by rewrite E1, E2.
    + intros Hb. pose proof (bst_subtree_at x t Hb) as Hbs.
      rewrite Hsub in Hbs.
      apply bst_replace_at; [done|done|by destruct Hbs as (_ & _ & _ & ?)|].
      intros e He. rewrite Hsub. simpl. by right.
  - destruct (remove_one_located fuel item w t x tl d tr Ht Hx Hsub)
      as (w' & Hrun & Ht'); [by right|].
    subst tr.
    assert (Hoc : only_child tl Leaf = tl) by (by destruct tl).
    rewrite Hoc in Ht'.
    assert (Hrn : remove_node x t = replace_at x tl t).
    { unfold remove_node. rewrite Hsub. by destruct tl. }
    rewrite Hrn. exists w'. split; [done|]. split; [done|]. split.
    + destruct (elements_replace_at x tl t Hnd Hx) as (l1 & l2 & E1 & E2).
      rewrite Hsub in E1. simpl in E1.
      exists (l1 ++ elements tl), l2.
      rewrite E1, E2. by rewrite <- !(assoc_L (++)).
    + intros Hb. pose proof (bst_subtree_at x t Hb) as Hbs.
      rewrite Hsub in Hbs.
      apply bst_replace_at; [done|done|by destruct Hbs as (_ & _ & ? & _)|].
      intros e He. rewrite Hsub. simpl. apply elem_of_app. by left.
  - destruct tr as [|b trl db trr]; [done|].
    assert (Hrn : remove_node x t = remove_two x t).
    { unfold remove_node. rewrite Hsub. by destruct tl. }
    assert (Hl : left (mkBinNode d (root_of tl) (Some b)) ≠ None).
    { simpl. by destruct tl. }
    destruct (remove_two_run fuel item
                (if decide (root_of t = Some x) then None else parent_of x t)
                w t x _ b Ht Hx Hf Hhx Hl eq_refl)
      as (xs & sn & ps & pn & w' & _ & _ & _ & _ & _ & Hrun & _ & _ & Ht').
    destruct (remove_two_pure x t tl d (Node b trl db trr)
                Hnd Hx Hsub) as (Helts & Hbst); [done|].
    rewrite Hrn. exists w'. by split_and!.
Qed.

(** The same call frees exactly one node [y] and what it leaves is the
    tree [remove_node x t]: when the node at [x] has at most one child, [y]
    is [x] itself; when it has two, [y] is its inorder successor, the
    leftmost node of its right subtree, whose value comes right after the
    value of [x] in the inorder sequence.  Nothing is allocated, and no
    location outside the tree is written. *)
Theorem remove_frees_one_node fuel item (w : world) (t tl tr : tree) x d :
  is_tree w t → x ∈ locs t → height t ≤ fuel →
  subtree_at x t = Node x tl d tr →
  ∃ w' y,
    remove fuel item true (Some x)
      (if decide (root_of t = Some x) then None else parent_of x t) w
    = Ok tt w'
    ∧ match tl, tr with
      | Node _ _ _ _, Node _ _ _ _ =>
          ∃ ds rs l1 l2,
            leftmost tr = Some (y, ds, rs)
            ∧ elements t = l1 ++ d :: ds :: l2
      | _, _ => y = x
      end
    ∧ y ∈ locs t
    ∧ dom (heap w') = dom (heap w) ∖ {[y]}
    ∧ (∀ l, l ∉ locs t → heap w' !! l = heap w !! l)
    ∧ is_tree w' (remove_node x t).
Proof using Type.
  clear show.
  intros Ht Hx Hf Hsub.
  pose proof Ht as (Hroot & Hs & Hnd).
  pose proof (subtree_at_shape (heap w) x t Hs) as Hss.
  pose proof (subtree_at_NoDup x t Hnd) as Hnds.
  pose proof (subtree_at_height x t) as Hh.
  rewrite Hsub in Hss, Hnds, Hh.
  pose proof Hss as (Hhx & _ & _).
  assert (Hone : tl = Leaf ∨ tr = Leaf →
    ∃ w',
      remove fuel item true (Some x)
        (if decide (root_of t = Some x) then None else parent_of x t) w
      = Ok tt w'
      ∧ dom (heap w') = dom (heap w) ∖ {[x]}
      ∧ (∀ l, l ∉ locs t → heap w' !! l = heap w !! l)
      ∧ is_tree w' (remove_node x t)).
  { intros Hc.
    destruct (remove_one_located fuel item w t x tl d tr Ht Hx Hsub Hc)
      as (w' & Hrun & Ht').
    destruct (remove_one_dom fuel item w w' t x tl d tr Ht Hx Hsub Hc Hrun)
      as (Hdom & Hfr).
    exists w'. split; [done|]. split; [done|]. split; [done|].
    assert (Hrn : remove_node x t = replace_at x (only_child tl tr) t).
    { unfold remove_node. rewrite Hsub.
      destruct Hc as [->| ->]; [done|by destruct tl]. }
    by rewrite Hrn. }
  destruct tl as [|a tll da tlr].
  { destruct Hone as (w' & Hrun & Hdom & Hfr & Ht'); [by left|].
    exists w', x. by split_and!. }
  destruct tr as [|b trl db trr].
  { destruct Hone as (w' & Hrun & Hdom & Hfr & Ht'); [by right|].
    exists w', x. by split_and!. }
  clear Hone.
  set (tl := Node a tll da tlr) in *.
  destruct (leftmost (Node b trl db trr)) as [[[xs ds] rs]|] eqn:Hm;
    [|by apply leftmost_None in Hm].
  assert (Hf' : height (Node b trl db trr) ≤ fuel).
  { simpl in Hh |- *. lia. }
  destruct (remove_two_subtree fuel item
              (if decide (root_of t = Some x) then None else parent_of x t)
              w x tl d b trl db trr xs ds rs Hss Hnds ltac:(done) Hf' Hm)
    as (ps & pn & Hps & Hps_in & _ & Hrun & _).
  assert (Hl : left (mkBinNode d (root_of tl) (Some b)) ≠ None) by done.
  destruct (remove_two_run fuel item
              (if decide (root_of t = Some x) then None else parent_of x t)
              w t x _ b Ht Hx Hf Hhx Hl eq_refl)
    as (xs' & sn' & ps' & pn' & w' & _ & _ & _ & _ & _ & Hrun' & _ & _
        & Ht').
  rewrite Hrun in Hrun'. injection Hrun' as <-.
  assert (Hsub_in : ∀ l, l ∈ locs (Node x tl d (Node b trl db trr)) →
                         l ∈ locs t).
  { intros l Hl'. rewrite <- Hsub in Hl'. by apply (subtree_at_locs x t). }
  assert (Hxs_in : xs ∈ locs t).
  { apply Hsub_in. right. apply elem_of_app. right.
    by apply (leftmost_in _ _ _ _ Hm). }
  eexists _, xs. split; [done|]. split; [|split; [done|split; [|split]]].
  - destruct (elements_replace_at x Leaf t Hnd Hx) as (l1 & l2 & E1 & _).
    rewrite Hsub in E1.
    change (elements (Node x tl d (Node b trl db trr)))
      with (elements tl ++ d :: elements (Node b trl db trr)) in E1.
    rewrite (leftmost_elements _ _ _ _ Hm) in E1.
    exists ds, rs, (l1 ++ elements tl),
      (elements (del_leftmost (Node b trl db trr)) ++ l2).
    split; [done|]. rewrite E1. by rewrite <- !(assoc_L (++)).
  - simpl. apply spliced_dom; [by rewrite Hhx|by rewrite Hps].
  - intros l Hl'. simpl. apply spliced_frame; intros ->; apply Hl'; auto.
  - assert (Hrn : remove_node x t = remove_two x t).
    { unfold remove_node. by rewrite Hsub. }
    by rewrite Hrn.
Qed.

(** [insert] followed by [remove] on the node that [insert] created ([x]
    the new node, [parent] the node it was hung under, null when it became
    the root) gives back the world before the insertion: the same heap and
    the same root. *)
Theorem insert_then_remove_restores fuel item (w : world) (t : tree) :
  is_tree w t → item ∉ elements t → height t ≤ fuel →
  ∃ w',
    insert lt fuel item w = Ok tt w'
    ∧ remove fuel item true (Some (fresh (dom (heap w))))
        (last_visited lt item t) w'
      = Ok tt w.
Proof using lt_order.
  clear show.
  intros Ht Hnin Hf.
  destruct (insert_absent_run fuel item w t Ht Hnin Hf)
    as (w' & Hrun & Hlink & Ht').
  set (new := fresh (dom (heap w))) in *.
  assert (Hfree : heap w !! new = None).
  { apply not_elem_of_dom. apply is_fresh. }
  pose proof (fresh_not_in_tree w t Ht) as Hnew_t. fold new in Hnew_t.
  destruct (linked_below_dom item new t w w' Hfree Hlink) as (Hnew & _).
  destruct (remove_one_run fuel item w' new _ Hnew) as (Hrun0 & Hrunp);
    [by left|].
  simpl in Hrun0, Hrunp.
  exists w'. split; [done|].
  destruct Ht as (Hroot & Hs & Hnd).
  unfold linked_below in Hlink.
  destruct (last_visited lt item t) as [p|].
  - destruct Hlink as (pn & Hp & Hp_in & Hroot' & Hside).
    assert (Hpn : p ≠ new) by (intros ->; congruence).
    assert (Hback : ∀ pn',
              heap w' = <[p := pn']> (<[new := mkBinNode item None None]>
                                        (heap w)) →
              (if ptr_eqb (left pn') (Some new)
               then mkBinNode (data pn') None (right pn')
               else mkBinNode (data pn') (left pn') None) = pn →
              remove fuel item true (Some new) (Some p) w' = Ok tt w).
    { intros pn' Hheap Hpn'.
      rewrite (Hrunp p pn') by (rewrite Hheap; apply lookup_insert_eq).
      destruct w as [h r]. simpl in *. f_equal.
      rewrite Hroot'. f_equal.
      unfold unlinked. rewrite Hpn', Hheap.
      apply map_eq. intros l.
      destruct (decide (l = new)) as [->|Hln].
      { by rewrite lookup_delete_eq. }
      rewrite lookup_delete_ne by done.
      destruct (decide (l = p)) as [->|Hlp].
      { by rewrite lookup_insert_eq. }
      by rewrite !lookup_insert_ne. }
    destruct (lt item (data pn)).
    + destruct Hside as (Hnone & Hheap).
      apply (Hback _ Hheap). simpl. unfold ptr_eqb.
      rewrite bool_decide_eq_true_2 by done.
      destruct pn as [dp lp rp]. simpl in *. by subst lp.
    + destruct Hside as (_ & Hnone & Hheap).
      apply (Hback _ Hheap). simpl. unfold ptr_eqb.
      rewrite bool_decide_eq_false_2.
      * destruct pn as [dp lp rp]. simpl in *. by subst rp.
      * intros Hc.
        destruct (node_children_in_tree (heap w) t p pn Hs Hp_in Hp)
          as (Hl & _).
        by apply Hnew_t, Hl.
  - destruct Hlink as (-> & Hroot' & Hheap).
    rewrite Hrun0. destruct w as [h r]. simpl in *. f_equal.
    rewrite Hroot. f_equal. rewrite Hheap.
    by apply delete_insert_id.
Qed.

(** On a tree, [insert] throws exactly when the value is already there: the
    call doubles as a membership test. *)
Theorem insert_throws_iff_present fuel item (w : world) (t : tree) :
  is_tree w t → bst lt t → height t ≤ fuel →
  (∃ what w', insert lt fuel item w = Throw what w') ↔ item ∈ elements t.
Proof using lt_order.
  clear show.
  intros Ht Hb Hf. split.
  - intros (what & w' & Hthrow).
    destruct (elements_dec item (elements t)) as [Hin|Hnin]; [done|].
    destruct (insert_absent_run fuel item w t Ht Hnin Hf)
      as (w1 & Hrun & _). by rewrite Hrun in Hthrow.
  - intros Hin.
    destruct (descend_found item t None Hb Hin) as (l & _ & Hdesc).
    exists "Item already in the tree", w.
    by apply (insert_found_throws fuel item w t l).
Qed.

(** ** The rows of the picture *)

Lemma unlines_app (l1 l2 : list string) :
  unlines (l1 ++ l2) = unlines l1 +:+ unlines l2.
Proof.
  induction l1 as [|l l1 IH]; [done|]. simpl.
  by rewrite IH, !append_assoc.
Qed.

Lemma graph_text_rows depth (t : tree) :
  graph_text show (8 * Z.of_nat depth) t
  = unlines (map (row_text show) (graph_rows depth t)).
Proof.
  revert depth.
  induction t as [|l tl IHl d tr IHr]; intros depth; simpl.
  - unfold line, row_text. simpl. by rewrite append_nil_r, !append_assoc.
  - replace (8 * Z.of_nat depth + 8)%Z with (8 * Z.of_nat (S depth))%Z by lia.
    rewrite IHl, IHr, map_app, unlines_app. simpl.
    unfold line, row_text. simpl. by rewrite !append_assoc.
Qed.

Lemma graph_rows_values depth (t : tree) :
  omap snd (graph_rows depth t) = reverse (elements t).
Proof.
  revert depth.
  induction t as [|l tl IHl d tr IHr]; intros depth; [done|]. simpl.
  rewrite omap_app. simpl. rewrite IHl, IHr.
  by rewrite reverse_app, reverse_cons, <- (assoc_L (++)).
Qed.

Lemma graph_rows_length depth (t : tree) :
  length (graph_rows depth t) = 2 * length (elements t) + 1.
Proof.
  revert depth.
  induction t as [|l tl IHl d tr IHr]; intros depth; [done|]. simpl.
  rewrite !length_app. simpl. rewrite IHl, IHr. lia.
Qed.

(** The picture that [graph] writes has one row for every element and one
    for every null link, 2n+1 rows for n elements; a row at depth k starts
    with 8k blanks (one at the root); and the values read from top to bottom
    are the inorder sequence backwards. *)
Theorem graph_rows_reverse_inorder fuel out (w : world) (t : tree) :
  is_tree w t → height t < fuel → (8 * Z.of_nat (height t) ≤ INT_MAX)%Z →
  graph show fuel out w
  = Ok (out +:+ unlines (map (row_text show) (graph_rows 0 t))) w
  ∧ omap snd (graph_rows 0 t) = reverse (elements t)
  ∧ length (graph_rows 0 t) = 2 * length (elements t) + 1.
Proof.
  intros Ht Hf Hmax. split; [|split].
  - rewrite <- (graph_text_rows 0 t). by apply graph_writes_text.
  - apply graph_rows_values.
  - apply graph_rows_length.
Qed.

(** ** insert on any heap *)

Lemma insert_loop_frame fuel item locptr parent found (w w' : world) r :
  insert_loop lt fuel item locptr parent found w = Ok r w' → w' = w.
Proof.
  revert locptr parent found.
  induction fuel as [|fuel IH]; intros locptr parent found; simpl.
  - destruct (negb found && not_null locptr); [done|]. by intros [= _ ->].
  - destruct (negb found && not_null locptr); [|by intros [= _ ->]].
    unfold mbind, M_bind, bind, load.
    destruct locptr as [l|]; [|done].
    destruct (heap w !! l) as [nd|]; [|done].
    destruct (lt item (data nd)); [apply IH|].
    destruct (lt (data nd) item); apply IH.
Qed.

Lemma no_throw_insert_loop fuel item locptr parent found :
  no_throw (insert_loop lt fuel item locptr parent found).
Proof.
  revert locptr parent found.
  induction fuel as [|fuel IH]; intros locptr parent found; simpl.
  - destruct (negb found && not_null locptr); [|apply no_throw_ret].
    by intros w what w'.
  - destruct (negb found && not_null locptr); [|apply no_throw_ret].
    apply no_throw_bind; [apply no_throw_load|]. intros nd.
    destruct (lt item (data nd)); [apply IH|].
    destruct (lt (data nd) item); apply IH.
Qed.

(** Whatever the heap looks like, the only exception of [insert] is "Item
    already in the tree", and a call that throws has changed nothing. *)
Theorem insert_throw_unchanged fuel item (w w' : world) what :
  insert lt fuel item w = Throw what w' →
  what = "Item already in the tree" ∧ w' = w.
Proof using Type.
  clear show.
  unfold insert.
  rewrite (bind_Ok get_myRoot _ w (myRoot w) w eq_refl).
  unfold mbind at 1, M_bind, bind.
  destruct (insert_loop lt fuel item (myRoot w) None false w)
    as [[[locptr parent] found] w1|what1 w1| |] eqn:Hloop; [| |done|done].
  - apply insert_loop_frame in Hloop as ->.
    destruct found; simpl; [by intros [= <- <-]|].
    intros H. exfalso. revert H.
    apply no_throw_bind; [by intros ? ? ?|]. intros q.
    destruct (ptr_eqb parent None); [apply no_throw_set_myRoot|].
    apply no_throw_bind; [apply no_throw_load|]. intros pn.
    destruct (lt item (data pn));
      [apply no_throw_set_left|apply no_throw_set_right].
  - by apply no_throw_insert_loop in Hloop.
Qed.

(** ** Traversals on any heap *)

Lemma no_throw_inorderAux fuel out p separator :
  no_throw (inorderAux show fuel out p separator).
Proof.
  revert out p.
  induction fuel as [|fuel IH]; intros out p; simpl; [by intros ? ? ?|].
  destruct (not_null p); [|apply no_throw_ret].
  apply no_throw_bind; [apply no_throw_load|]. intros nd.
  apply no_throw_bind; [apply IH|]. intros out1. apply IH.
Qed.

Lemma no_throw_graphAux fuel out indent p :
  no_throw (graphAux show fuel out indent p).
Proof.
  revert out indent p.
  induction fuel as [|fuel IH]; intros out indent p; simpl;
    [by intros ? ? ?|].
  destruct (not_null p); [|apply no_throw_ret].
  assert (Hadd : ∀ a b, no_throw (int_add a b : M Z)).
  { intros a b w what w'. unfold int_add. by destruct (bool_decide _). }
  apply no_throw_bind; [apply no_throw_load|]. intros nd.
  apply no_throw_bind; [apply Hadd|]. intros i1.
  apply no_throw_bind; [apply IH|]. intros out1.
  apply no_throw_bind; [apply Hadd|]. intros i2. apply IH.
Qed.

(** [inorder] and [graph] only read: on any heap, even one that is not laid
    out as a tree, they throw nothing, and when they return the heap and the
    root are the ones they found. *)
Theorem traversals_only_read fuel out separator (w : world) :
  (∀ what w', inorder show fuel out separator w ≠ Throw what w')
  ∧ (∀ what w', graph show fuel out w ≠ Throw what w')
  ∧ (∀ out' w', inorder show fuel out separator w = Ok out' w' → w' = w)
  ∧ (∀ out' w', graph show fuel out w = Ok out' w' → w' = w).
Proof.
  unfold inorder, graph.
  rewrite !(bind_Ok get_myRoot _ w (myRoot w) w eq_refl).
  split; [intros; apply no_throw_inorderAux|].
  split; [intros; apply no_throw_graphAux|].
  split; intros out' w' H.
  - by apply inorderAux_frame in H.
  - by apply graphAux_frame in H.
Qed.

(** ** No balancing *)

Lemma ins_right_list new item (t : tree) :
  right_list t → Forall (fun e => lt e item = true) (elements t) →
  right_list (ins lt new item t)
  ∧ height (ins lt new item t) = S (height t)
  ∧ elements (ins lt new item t) = elements t ++ [item].
Proof using lt_order.
  clear show.
  induction t as [|l tl IHl d tr IHr]; intros Hr Hall; [done|].
  destruct Hr as (-> & Hr). simpl in Hall.
  apply Forall_cons in Hall as (Hd & Hall).
  simpl. rewrite (lt_asym _ _ Hd), Hd.
  destruct (IHr Hr Hall) as (Hr' & Hh' & He').
  simpl. rewrite Hh', He'. split; [done|]. split; [lia|done].
Qed.

Lemma right_list_height (t : tree) :
  right_list t → height t = length (elements t).
Proof.
  induction t as [|l tl IHl d tr IHr]; [done|].
  intros (-> & Hr). simpl. by rewrite IHr.
Qed.

Lemma insert_all_right_list fuel items (w : world) (t : tree) :
  is_tree w t → right_list t →
  ascending lt (elements t ++ items) →
  height t + length items ≤ fuel →
  ∃ w' (t' : tree),
    insert_all lt fuel items w = Ok tt w'
    ∧ is_tree w' t' ∧ right_list t'
    ∧ elements t' = elements t ++ items.
Proof using lt_order.
  clear show.
  revert w t.
  induction items as [|item items IH]; intros w t Ht Hr Hasc Hf.
  { exists w, t. by rewrite app_nil_r. }
  simpl in Hf.
  unfold ascending in Hasc. pose proof Hasc as Hasc'.
  apply StronglySorted_app in Hasc' as (Hlt & _ & _).
  assert (Hall : Forall (fun e => lt e item = true) (elements t)).
  { apply Forall_forall. intros e He. apply Hlt; [done|left]. }
  assert (Hnin : item ∉ elements t).
  { intros Hin. rewrite Forall_forall in Hall. specialize (Hall _ Hin).
    by rewrite (st_irrefl _ lt_order) in Hall. }
  destruct (insert_absent_run fuel item w t Ht Hnin) as (w1 & Hrun & _ & Ht1);
    [lia|].
  set (new := fresh (dom (heap w))) in *.
  destruct (ins_right_list new item t Hr Hall) as (Hr1 & Hh1 & He1).
  destruct (IH w1 _ Ht1 Hr1) as (w' & t' & Hrun' & Ht' & Hr' & He').
  { unfold ascending. by rewrite He1, <- (assoc_L (++)). }
  { lia. }
  exists w', t'. simpl. rewrite Hrun.
  split; [done|]. split; [done|]. split; [done|].
  by rewrite He', He1, <- (assoc_L (++)).
Qed.

(** [insert] never rebalances: inserting values in ascending order into an
    empty tree builds a tree in which no node has a left child and whose
    height is the number of values. *)
Theorem ascending_inserts_degenerate items (h : gmap loc BinNode) :
  ascending lt items →
  ∃ w' (t' : tree),
    insert_all lt (length items) items (BST_new h) = Ok tt w'
    ∧ is_tree w' t' ∧ right_list t'
    ∧ elements t' = items
    ∧ height t' = length items.
Proof using lt_order.
  clear show.
  intros Hasc.
  destruct (insert_all_right_list (length items) items (BST_new h) Leaf)
    as (w' & t' & Hrun & Ht' & Hr' & He'); [|done|done|simpl; lia|].
  { split; [done|]. split; [done|constructor]. }
  simpl in He'. exists w', t'. split_and!; try done.
  by rewrite (right_list_height t' Hr'), He'.
Qed.

End order.

End proofs.

(** ** [int] elements: the order, and the claims at concrete trees *)

Lemma Z_ltb_strict : strict_total Z.ltb.
Proof.
  split.
  - apply Z.ltb_irrefl.
  - intros a b c. rewrite !Z.ltb_lt. lia.
  - intros a b. rewrite !Z.ltb_ge. lia.
Qed.

(** The scenario world is what the insertions of the scenario build. *)
Lemma scenario_built :
  insert_all Z.ltb 7 [5; 3; 8; 1; 4; 7; 9]%Z w_empty = Ok tt w_scenario.
Proof. vm_compute. reflexivity. Qed.

Lemma scenario_inorder :
  inorder int_show 4 "" "," w_scenario = Ok "1,3,4,5,7,8,9," w_scenario.
Proof. vm_compute. reflexivity. Qed.

(** The removals of the scenario, with the locals of [remove] holding what
    [locate] gives: 3 has two children here, and so has the root 5. *)
Lemma scenario_remove_located :
  locate Z.ltb 5%Z t_scenario None = (true, Some 1%positive, None)
  ∧ (∃ w', remove 4 5%Z true (Some 1%positive) None w_scenario = Ok tt w'
           ∧ inorder int_show 4 "" "," w' = Ok "1,3,4,7,8,9," w')
  ∧ locate Z.ltb 3%Z t_scenario None
    = (true, Some 2%positive, Some 1%positive)
  ∧ (∃ w', remove 4 3%Z true (Some 2%positive) (Some 1%positive) w_scenario
           = Ok tt w'
           ∧ inorder int_show 4 "" "," w' = Ok "1,4,5,7,8,9," w').
Proof.
  split; [reflexivity|]. split.
  { eexists. split; vm_compute; reflexivity. }
  split; [reflexivity|].
  eexists. split; vm_compute; reflexivity.
Qed.

Lemma w_531_built :
  insert_all Z.ltb 3 [5; 3; 1]%Z w_empty = Ok tt w_531.
Proof. vm_compute. reflexivity. Qed.

Lemma insert_duplicate_throws_witness :
  (is_tree w_scenario t_scenario ∧ bst Z.ltb t_scenario
   ∧ 5%Z ∈ elements t_scenario ∧ height t_scenario ≤ 3)
  ∧ insert Z.ltb 3 5%Z w_scenario
    = Throw "Item already in the tree" w_scenario.
Proof.
  assert (is_tree w_scenario t_scenario) as H1 by solve_is_tree.
  assert (bst Z.ltb t_scenario) as H2 by solve_bst.
  assert (5%Z ∈ elements t_scenario) as H3 by solve_decidable.
  assert (height t_scenario ≤ 3) as H4 by (simpl; lia).
  split; [split_and!; assumption|].
  exact (insert_duplicate_throws Z.ltb Z_ltb_strict 3 5%Z
           w_scenario t_scenario H1 H2 H3 H4).
Defined.

Lemma insert_absent_links_witness :
  (is_tree w_scenario t_scenario ∧ bst Z.ltb t_scenario
   ∧ (6%Z ∉ elements t_scenario) ∧ height t_scenario ≤ 3)
  ∧ ∃ w',
      insert Z.ltb 3 6%Z w_scenario = Ok tt w'
      ∧ heap w' !! 8%positive = Some (mkBinNode 6%Z None None)
      ∧ linked_below Z.ltb 6%Z 8%positive t_scenario w_scenario w'
      ∧ is_tree w' (ins Z.ltb 8%positive 6%Z t_scenario)
      ∧ length (elements (ins Z.ltb 8%positive 6%Z t_scenario)) = 8.
Proof.
  assert (is_tree w_scenario t_scenario) as H1 by solve_is_tree.
  assert (bst Z.ltb t_scenario) as H2 by solve_bst.
  assert (6%Z ∉ elements t_scenario) as H3 by solve_decidable.
  assert (height t_scenario ≤ 3) as H4 by (simpl; lia).
  split; [split_and!; assumption|].
  destruct (insert_absent_links Z.ltb Z_ltb_strict 3 6%Z
              w_scenario t_scenario H1 H2 H3 H4)
    as (w' & Hrun & _ & Hnew & _ & Hlink & Htree & _ & _ & _ & Hlen).
  set (new := fresh _) in *.
  assert (Hfresh : new = 8%positive) by (vm_compute; reflexivity).
  clearbody new. subst new.
  exists w'. split_and!; assumption.
Defined.

Lemma remove_two_children_witness :
  (is_tree w_right_succ t_right_succ ∧ 1%positive ∈ locs t_right_succ
   ∧ height t_right_succ ≤ 3)
  ∧ ∃ w',
      remove 3 5%Z true (Some 1%positive) None w_right_succ = Ok tt w'
      ∧ heap w' !! 1%positive
        = Some (mkBinNode 8%Z (Some 2%positive) (Some 4%positive))
      ∧ heap w' !! 3%positive = None
      ∧ is_tree w' (remove_two 1%positive t_right_succ).
Proof.
  assert (is_tree w_right_succ t_right_succ) as H1 by solve_is_tree.
  assert (1%positive ∈ locs t_right_succ) as H2 by solve_decidable.
  assert (height t_right_succ ≤ 3) as H3 by (simpl; lia).
  split; [split_and!; assumption|].
  destruct (remove_two_children Z.ltb Z_ltb_strict 3 5%Z None
              w_right_succ t_right_succ 1%positive
              (mkBinNode 5%Z (Some 2%positive) (Some 3%positive)) 3%positive
              H1 H2 H3 eq_refl ltac:(discriminate) eq_refl)
    as (xs & sn & ps & pn & w' & _ & _ & _ & _ & _ & Hrun & _ & _ & Htree
        & _).
  exists w'. split; [exact Hrun|].
  assert (Hw : Ok tt w' =
    Ok tt (mkWorld
             (list_to_map
                [ (1%positive,
                   mkBinNode 8%Z (Some 2%positive) (Some 4%positive));
                  (2%positive, mkBinNode 3%Z None None);
                  (4%positive, mkBinNode 9%Z None None) ])
             (Some 1%positive))).
  { etransitivity; [symmetry; exact Hrun|]. vm_compute. reflexivity. }
  split; [|split; [|exact Htree]].
  - injection Hw as ->. vm_compute. reflexivity.
  - injection Hw as ->. vm_compute. reflexivity.
Defined.

Lemma graph_rendering_witness :
  (is_tree w_scenario t_scenario ∧ height t_scenario < 4
   ∧ (8 * Z.of_nat (height t_scenario) ≤ INT_MAX)%Z)
  ∧ graph int_show 4 "" w_scenario
    = Ok ("" +:+ graph_text int_show 0 t_scenario) w_scenario.
Proof.
  assert (is_tree w_scenario t_scenario) as H1 by solve_is_tree.
  assert (height t_scenario < 4) as H2 by (simpl; lia).
  assert (8 * Z.of_nat (height t_scenario) ≤ INT_MAX)%Z as H3
    by (vm_compute; discriminate).
  split; [split_and!; assumption|].
  exact (proj1 (graph_rendering int_show 4 "" w_scenario t_scenario
                  H1 H2 H3)).
Defined.

Lemma traversals_leave_tree_witness :
  (is_tree w_scenario t_scenario ∧ height t_scenario < 4
   ∧ (8 * Z.of_nat (height t_scenario) ≤ INT_MAX)%Z)
  ∧ ∃ text,
      inorder int_show 4 "" "," w_scenario = Ok ("" +:+ text) w_scenario.
Proof.
  assert (is_tree w_scenario t_scenario) as H1 by solve_is_tree.
  assert (height t_scenario < 4) as H2 by (simpl; lia).
  assert (8 * Z.of_nat (height t_scenario) ≤ INT_MAX)%Z as H3
    by (vm_compute; discriminate).
  split; [split_and!; assumption|].
  exact (proj1 (traversals_leave_tree int_show 4 "" "," w_scenario
                  t_scenario H1 H2 H3)).
Defined.

(** C9 as the specification states it, with the value of the root at indent
    0, fails on the tree that holds only 5: the picture would start its
    middle line with [5], and [graph] writes one blank before it. *)
Lemma graph_root_indent_counterexample :
  is_tree w_5 t_5 ∧ height t_5 < 2
  ∧ graph int_show 2 "" w_5
    = Ok ("        _" +:+ endl +:+ " 5" +:+ endl +:+ "        _" +:+ endl)
         w_5
  ∧ graph_spec int_show 0 t_5
    = "        _" +:+ endl +:+ "5" +:+ endl +:+ "        _" +:+ endl
  ∧ graph int_show 2 "" w_5 ≠ Ok ("" +:+ graph_spec int_show 0 t_5) w_5.
Proof.
  split; [solve_is_tree|]. split; [simpl; lia|].
  split; [vm_compute; reflexivity|]. split; [vm_compute; reflexivity|].
  vm_compute. discriminate.
Qed.

(** ** Where the unfinished members break the specification *)

(** C1, at the tree that [insert(5)] builds from the empty tree: 5 is in the
    tree and [search(5)] returns false. *)
Theorem search_misses_inserted_item :
  insert Z.ltb 0 5%Z w_empty = Ok tt w_5
  ∧ is_tree w_5 t_5 ∧ 5%Z ∈ elements t_5
  ∧ search 5%Z w_5 = Ok false w_5.
Proof.
  split; [vm_compute; reflexivity|]. split; [solve_is_tree|].
  split; [solve_decidable|]. reflexivity.
Qed.

(** C2, at the empty tree: when the uninitialised [found] reads true,
    [remove(7)] raises nothing; it dereferences [x], whatever [x] reads. *)
Theorem remove_absent_not_reported (x parent : ptr) :
  remove 0 7%Z true x parent w_empty = Undefined.
Proof. apply remove_found_true_dangling. intros l _. apply lookup_empty. Qed.

(** C5, at the tree that holds only 5: when the uninitialised [found] reads
    false, [remove(5)] reports 5 as not present and leaves it in the tree;
    and whatever the three locals read, [remove(5)] does what [remove(7)]
    does. *)
Theorem remove_present_reported_absent :
  is_tree w_5 t_5 ∧ 5%Z ∈ elements t_5
  ∧ (∀ x parent,
       remove 1 5%Z false x parent w_5 = Throw "Item not in the BST" w_5)
  ∧ (∀ found x parent,
       remove 1 5%Z found x parent w_5 = remove 1 7%Z found x parent w_5).
Proof.
  split; [solve_is_tree|]. split; [solve_decidable|].
  split; [intros; apply remove_found_false|].
  intros. apply remove_item_blind.
Qed.

(** C6, at the tree of the scenario, where 5 lives at the root (location
    1) and has two children, so that [remove(5)] should copy the successor
    7 into the root and free the node of 7.  [search2] hands back the three
    locals as it found them, where its documentation promises [found] true
    and [locptr] on the root.  So when the uninitialised [found] reads
    false, [remove(5)] throws, no successor is looked for and the root keeps
    5 and both children; whatever the locals read, [remove(5)] does what
    [remove(999)] does; and when they read [found] true and [x] the node of
    3, which has two children as well, it is 3 that is replaced by its
    successor 4, and 5 stays in the tree. *)
Theorem remove_two_children_not_located :
  is_tree w_scenario t_scenario
  ∧ heap w_scenario !! 1%positive
    = Some (mkBinNode 5%Z (Some 2%positive) (Some 3%positive))
  ∧ locate Z.ltb 5%Z t_scenario None = (true, Some 1%positive, None)
  ∧ (∀ found locptr parent,
       search2 5%Z found locptr parent w_scenario
       = Ok (found, locptr, parent) w_scenario)
  ∧ (∀ fuel x parent,
       remove fuel 5%Z false x parent w_scenario
       = Throw "Item not in the BST" w_scenario)
  ∧ (∀ fuel found x parent,
       remove fuel 5%Z found x parent w_scenario
       = remove fuel 999%Z found x parent w_scenario)
  ∧ ∃ w',
      remove 3 5%Z true (Some 2%positive) (Some 1%positive) w_scenario
      = Ok tt w'
      ∧ heap w' !! 1%positive
        = Some (mkBinNode 5%Z (Some 2%positive) (Some 3%positive))
      ∧ heap w' !! 2%positive
        = Some (mkBinNode 4%Z (Some 4%positive) None)
      ∧ heap w' !! 5%positive = None
      ∧ inorder int_show 4 "" "," w' = Ok "1,4,5,7,8,9," w'.
Proof.
  split; [solve_is_tree|]. split; [vm_compute; reflexivity|].
  split; [reflexivity|]. split; [reflexivity|].
  split; [intros; apply remove_found_false|].
  split; [intros; apply remove_item_blind|].
  eexists. split; [vm_compute; reflexivity|].
  split_and!; vm_compute; reflexivity.
Qed.

(** C7, at the tree that [insert] builds from 5, 3, 1 (5 at location 1, 3
    at 2, 1 at 3): when the locals of [remove(3)] read [found = true],
    [x] = the node of 3 and [parent] = the node of 1, the call returns, the
    node of 3 is freed while the node of 5 still points to it, the node of 1
    has become its own right child, and [inorder] runs into the freed
    node. *)
Theorem remove_stale_parent_breaks_tree :
  insert_all Z.ltb 3 [5; 3; 1]%Z w_empty = Ok tt w_531
  ∧ ∃ w',
      remove 2 3%Z true (Some 2%positive) (Some 3%positive) w_531 = Ok tt w'
      ∧ heap w' !! 1%positive = Some (mkBinNode 5%Z (Some 2%positive) None)
      ∧ heap w' !! 2%positive = None
      ∧ heap w' !! 3%positive = Some (mkBinNode 1%Z None (Some 3%positive))
      ∧ ∀ fuel out separator,
          2 ≤ fuel → inorder int_show fuel out separator w' = Undefined.
Proof.
  split; [vm_compute; reflexivity|].
  eexists. split; [vm_compute; reflexivity|].
  split; [vm_compute; reflexivity|].
  split; [vm_compute; reflexivity|].
  split; [vm_compute; reflexivity|].
  intros fuel out separator Hf.
  destruct fuel as [|[|fuel]]; [lia|lia|]. reflexivity.
Qed.

(** C8, at the tree that holds only 5: [inorder] writes the element and the
    separator; [preorder] and [postorder] write nothing, where the classical
    traversals write the same text as [inorder]. *)
Theorem preorder_postorder_write_nothing :
  is_tree w_5 t_5
  ∧ inorder int_show 2 "" "  " w_5 = Ok "5  " w_5
  ∧ preorder "" "  " w_5 = Ok "" w_5
  ∧ postorder "" "  " w_5 = Ok "" w_5
  ∧ preorder_text int_show "  " t_5 = "5  "
  ∧ postorder_text int_show "  " t_5 = "5  ".
Proof.
  split; [solve_is_tree|].
  split_and!; vm_compute; reflexivity.
Qed.

(** ** The further properties at the trees of the scenario *)

Lemma empty_iff_no_elements_witness :
  is_tree w_scenario t_scenario
  ∧ ∃ b, empty w_scenario = Ok b w_scenario
         ∧ (b = true ↔ elements t_scenario = []).
Proof.
  assert (is_tree w_scenario t_scenario) as H1 by solve_is_tree.
  split; [assumption|].
  exact (empty_iff_no_elements w_scenario t_scenario H1).
Defined.

Lemma insert_then_not_empty_witness :
  (is_tree w_empty (Leaf : tree Z) ∧ bst Z.ltb (Leaf : tree Z)
   ∧ height (Leaf : tree Z) ≤ 0)
  ∧ ∃ w',
      (insert Z.ltb 0 5%Z w_empty = Ok tt w'
       ∨ insert Z.ltb 0 5%Z w_empty = Throw "Item already in the tree" w')
      ∧ empty w' = Ok false w'.
Proof.
  assert (is_tree w_empty (Leaf : tree Z)) as H1 by solve_is_tree.
  assert (bst Z.ltb (Leaf : tree Z)) as H2 by solve_bst.
  assert (height (Leaf : tree Z) ≤ 0) as H3 by (simpl; lia).
  split; [split_and!; assumption|].
  exact (insert_then_not_empty Z.ltb Z_ltb_strict 0 5%Z w_empty Leaf
           H1 H2 H3).
Defined.

Lemma insert_twice_throws_witness :
  (is_tree w_scenario t_scenario ∧ bst Z.ltb t_scenario
   ∧ (6%Z ∉ elements t_scenario) ∧ S (height t_scenario) ≤ 4)
  ∧ ∃ w',
      insert Z.ltb 4 6%Z w_scenario = Ok tt w'
      ∧ insert Z.ltb 4 6%Z w' = Throw "Item already in the tree" w'.
Proof.
  assert (is_tree w_scenario t_scenario) as H1 by solve_is_tree.
  assert (bst Z.ltb t_scenario) as H2 by solve_bst.
  assert (6%Z ∉ elements t_scenario) as H3 by solve_decidable.
  assert (S (height t_scenario) ≤ 4) as H4 by (simpl; lia).
  split; [split_and!; assumption|].
  exact (insert_twice_throws Z.ltb Z_ltb_strict 4 6%Z w_scenario t_scenario
           H1 H2 H3 H4).
Defined.

Lemma inorder_writes_elements_witness :
  (is_tree w_scenario t_scenario ∧ height t_scenario < 4)
  ∧ inorder int_show 4 "" "," w_scenario
    = Ok ("" +:+ joined int_show "," [1; 3; 4; 5; 7; 8; 9]%Z) w_scenario.
Proof.
  assert (is_tree w_scenario t_scenario) as H1 by solve_is_tree.
  assert (height t_scenario < 4) as H2 by (simpl; lia).
  split; [split_and!; assumption|].
  exact (proj1 (inorder_writes_elements Z.ltb int_show Z_ltb_strict 4 "" ","
                  w_scenario t_scenario H1 H2)).
Defined.

Lemma insert_at_sorted_position_witness :
  (is_tree w_scenario t_scenario ∧ bst Z.ltb t_scenario
   ∧ (6%Z ∉ elements t_scenario) ∧ S (height t_scenario) < 5)
  ∧ ∃ w' l1 l2,
      insert Z.ltb 5 6%Z w_scenario = Ok tt w'
      ∧ elements t_scenario = l1 ++ l2
      ∧ Forall (fun e => Z.ltb e 6 = true) l1
      ∧ Forall (fun e => Z.ltb 6 e = true) l2
      ∧ inorder int_show 5 "" "," w'
        = Ok ("" +:+ joined int_show "," (l1 ++ 6%Z :: l2)) w'.
Proof.
  assert (is_tree w_scenario t_scenario) as H1 by solve_is_tree.
  assert (bst Z.ltb t_scenario) as H2 by solve_bst.
  assert (6%Z ∉ elements t_scenario) as H3 by solve_decidable.
  assert (S (height t_scenario) < 5) as H4 by (simpl; lia).
  split; [split_and!; assumption|].
  exact (insert_at_sorted_position Z.ltb int_show Z_ltb_strict 5 "" "," 6%Z
           w_scenario t_scenario H1 H2 H3 H4).
Defined.

Lemma insert_order_irrelevant_witness :
  (is_tree w_5 t_5 ∧ bst Z.ltb t_5 ∧ [3; 8; 1]%Z ≡ₚ [8; 3; 1]%Z
   ∧ height t_5 + length [3; 8; 1]%Z ≤ 4)
  ∧ ∃ w1 w2 text,
      insert_all Z.ltb 4 [3; 8; 1]%Z w_5 = Ok tt w1
      ∧ insert_all Z.ltb 4 [8; 3; 1]%Z w_5 = Ok tt w2
      ∧ inorder int_show 5 "" "," w1 = Ok ("" +:+ text) w1
      ∧ inorder int_show 5 "" "," w2 = Ok ("" +:+ text) w2.
Proof.
  assert (is_tree w_5 t_5) as H1 by solve_is_tree.
  assert (bst Z.ltb t_5) as H2 by solve_bst.
  assert ([3; 8; 1]%Z ≡ₚ [8; 3; 1]%Z) as H3 by apply perm_swap.
  assert (height t_5 + length [3; 8; 1]%Z ≤ 4) as H4 by (simpl; lia).
  split; [split_and!; assumption|].
  exact (insert_order_irrelevant Z.ltb int_show Z_ltb_strict 4 "" ","
           [3; 8; 1]%Z [8; 3; 1]%Z w_5 t_5 H1 H2 H3 H4).
Defined.

Lemma remove_unlinks_node_witness :
  (is_tree w_scenario t_scenario ∧ 2%positive ∈ locs t_scenario
   ∧ height t_scenario ≤ 3
   ∧ subtree_at 2%positive t_scenario
     = Node 2%positive (Node 4%positive Leaf 1%Z Leaf) 3%Z
                       (Node 5%positive Leaf 4%Z Leaf))
  ∧ ∃ w',
      remove 3 3%Z true (Some 2%positive) (Some 1%positive) w_scenario
      = Ok tt w'
      ∧ is_tree w' (remove_node 2%positive t_scenario)
      ∧ elements (remove_node 2%positive t_scenario) = [1; 4; 5; 7; 8; 9]%Z
      ∧ bst Z.ltb (remove_node 2%positive t_scenario).
Proof.
  assert (is_tree w_scenario t_scenario) as H1 by solve_is_tree.
  assert (bst Z.ltb t_scenario) as Hb by solve_bst.
  assert (2%positive ∈ locs t_scenario) as H2 by solve_decidable.
  assert (height t_scenario ≤ 3) as H3 by (simpl; lia).
  assert (subtree_at 2%positive t_scenario
          = Node 2%positive (Node 4%positive Leaf 1%Z Leaf) 3%Z
                            (Node 5%positive Leaf 4%Z Leaf)) as H4
    by reflexivity.
  split; [split_and!; assumption|].
  destruct (remove_unlinks_node Z.ltb Z_ltb_strict 3 3%Z w_scenario
              t_scenario _ _ 2%positive 3%Z H1 H2 H3 H4)
    as (w' & Hrun & Htree & _ & Hbst).
  exists w'. split; [exact Hrun|]. split; [exact Htree|].
  split; [reflexivity|exact (Hbst Hb)].
Defined.

Lemma remove_frees_one_node_witness :
  (is_tree w_scenario t_scenario ∧ 1%positive ∈ locs t_scenario
   ∧ height t_scenario ≤ 3
   ∧ subtree_at 1%positive t_scenario = t_scenario)
  ∧ ∃ w',
      remove 3 5%Z true (Some 1%positive) None w_scenario = Ok tt w'
      ∧ dom (heap w') = dom (heap w_scenario) ∖ {[6%positive]}
      ∧ (∀ l, l ∉ locs t_scenario → heap w' !! l = heap w_scenario !! l)
      ∧ is_tree w' (remove_node 1%positive t_scenario).
Proof.
  assert (is_tree w_scenario t_scenario) as H1 by solve_is_tree.
  assert (1%positive ∈ locs t_scenario) as H2 by solve_decidable.
  assert (height t_scenario ≤ 3) as H3 by (simpl; lia).
  assert (subtree_at 1%positive t_scenario = t_scenario) as H4
    by reflexivity.
  split; [split_and!; assumption|].
  destruct (remove_frees_one_node 3 5%Z w_scenario t_scenario _ _
              1%positive 5%Z H1 H2 H3 H4)
    as (w' & y & Hrun & (ds & rs & l1 & l2 & Hsucc & _) & _ & Hdom & Hfr
        & Htree).
  injection Hsucc as <- _ _.
  exists w'. split_and!; assumption.
Defined.

Lemma insert_then_remove_restores_witness :
  (is_tree w_scenario t_scenario ∧ (6%Z ∉ elements t_scenario)
   ∧ height t_scenario ≤ 3)
  ∧ ∃ w',
      insert Z.ltb 3 6%Z w_scenario = Ok tt w'
      ∧ remove 3 6%Z true (Some 8%positive) (Some 6%positive) w'
        = Ok tt w_scenario.
Proof.
  assert (is_tree w_scenario t_scenario) as H1 by solve_is_tree.
  assert (6%Z ∉ elements t_scenario) as H2 by solve_decidable.
  assert (height t_scenario ≤ 3) as H3 by (simpl; lia).
  split; [split_and!; assumption|].
  destruct (insert_then_remove_restores Z.ltb Z_ltb_strict 3 6%Z
              w_scenario t_scenario H1 H2 H3) as (w' & Hins & Hrem).
  set (new := fresh _) in Hrem.
  assert (Hfresh : new = 8%positive) by (vm_compute; reflexivity).
  clearbody new. subst new.
  exists w'. split; [exact Hins|exact Hrem].
Defined.

Lemma insert_throws_iff_present_witness :
  (is_tree w_scenario t_scenario ∧ bst Z.ltb t_scenario
   ∧ height t_scenario ≤ 3)
  ∧ ((∃ what w', insert Z.ltb 3 5%Z w_scenario = Throw what w')
     ↔ 5%Z ∈ elements t_scenario).
Proof.
  assert (is_tree w_scenario t_scenario) as H1 by solve_is_tree.
  assert (bst Z.ltb t_scenario) as H2 by solve_bst.
  assert (height t_scenario ≤ 3) as H3 by (simpl; lia).
  split; [split_and!; assumption|].
  exact (insert_throws_iff_present Z.ltb Z_ltb_strict 3 5%Z
           w_scenario t_scenario H1 H2 H3).
Defined.

Lemma graph_rows_reverse_inorder_witness :
  (is_tree w_scenario t_scenario ∧ height t_scenario < 4
   ∧ (8 * Z.of_nat (height t_scenario) ≤ INT_MAX)%Z)
  ∧ graph int_show 4 "" w_scenario
    = Ok ("" +:+ unlines (map (row_text int_show) (graph_rows 0 t_scenario)))
         w_scenario
  ∧ omap snd (graph_rows 0 t_scenario) = [9; 8; 7; 5; 4; 3; 1]%Z
  ∧ length (graph_rows 0 t_scenario) = 15.
Proof.
  assert (is_tree w_scenario t_scenario) as H1 by solve_is_tree.
  assert (height t_scenario < 4) as H2 by (simpl; lia).
  assert (8 * Z.of_nat (height t_scenario) ≤ INT_MAX)%Z as H3
    by (vm_compute; discriminate).
  split; [split_and!; assumption|].
  exact (graph_rows_reverse_inorder int_show 4 "" w_scenario t_scenario
           H1 H2 H3).
Defined.

Lemma insert_throw_unchanged_witness :
  insert Z.ltb 3 5%Z w_scenario = Throw "Item already in the tree" w_scenario
  ∧ "Item already in the tree" = "Item already in the tree"
  ∧ w_scenario = w_scenario.
Proof.
  assert (insert Z.ltb 3 5%Z w_scenario
          = Throw "Item already in the tree" w_scenario) as H1
    by (vm_compute; reflexivity).
  split; [assumption|].
  exact (insert_throw_unchanged Z.ltb 3 5%Z w_scenario w_scenario
           "Item already in the tree" H1).
Defined.

Lemma ascending_inserts_degenerate_witness :
  ascending Z.ltb [1; 3; 4; 5]%Z
  ∧ ∃ w' (t' : tree Z),
      insert_all Z.ltb 4 [1; 3; 4; 5]%Z (BST_new ∅) = Ok tt w'
      ∧ is_tree w' t' ∧ right_list t'
      ∧ elements t' = [1; 3; 4; 5]%Z
      ∧ height t' = 4.
Proof.
  assert (ascending Z.ltb [1; 3; 4; 5]%Z) as H1 by (repeat constructor).
  split; [assumption|].
  exact (ascending_inserts_degenerate Z.ltb Z_ltb_strict [1; 3; 4; 5]%Z ∅
           H1).
Defined.

Lemma inserts_ascending_witness :
  strict_total Z.ltb
  ∧ ∃ w' (t' : tree Z),
      insert_all Z.ltb 7 [5; 3; 8; 1; 4; 7; 9]%Z (BST_new ∅) = Ok tt w'
      ∧ is_tree w' t' ∧ bst Z.ltb t'
      ∧ ascending Z.ltb (elements t')
      ∧ (∀ e, e ∈ elements t' ↔ e ∈ [5; 3; 8; 1; 4; 7; 9]%Z)
      ∧ inorder int_show 8 "" "," w'
        = Ok ("" +:+ inorder_text int_show "," t') w'.
Proof.
  split; [exact Z_ltb_strict|].
  exact (inserts_ascending Z.ltb int_show Z_ltb_strict
           [5; 3; 8; 1; 4; 7; 9]%Z ∅ "" ",").
Defined.
